(** * FastAPIServer: the authentication and authorization core

    A shallow embedding of the credential store ([app/services/user_service.py]),
    the account models ([app/models/__init__.py]), the access guard
    ([app/api/auth.py], [app/api/users.py]) and the settings
    ([app/core/config.py]), followed by the properties of the design
    document that concern them; then the product service
    ([app/services/product_service.py], [app/api/products.py]) and the
    upload handlers ([app/api/files.py]) with properties of theirs.

    Conventions of the embedding:
    - Python [int] is [Z]; [str] is [string], a sequence of characters drawn
      from the 256 of [ascii], so that [len] is [String.length];
      [Optional[T]] is [option T].
    - [datetime.utcnow()] is an explicit argument [now : datetime].
    - the randomness of the salted password hash is an explicit argument.
    - a function that can raise returns a [result]; a method that mutates
      [self] takes the service state and returns the new one next to its
      result. *)

From stdpp Require Import base option list sorting gmap strings.
From Stdlib Require Import ZArith Lia.
From Corelib Require PrimFloat.
Import (notations) PrimFloat.
#[local] Set Warnings "-inexact-float".

Local Open Scope Z_scope.

(** ** Exceptions *)

(** [fastapi.HTTPException(status_code, detail)] and pydantic's
    [ValidationError] (the argument names the offending field). *)
Inductive exn :=
| HTTPException (status_code : Z) (detail : string)
| ValidationError (field : string).

Inductive result (A : Type) :=
| Ok (a : A)
| Raise (e : exn).
Arguments Ok {A} a.
Arguments Raise {A} e.

Definition bind {A B : Type} (r : result A) (k : A → result B) : result B :=
  match r with
  | Ok a => k a
  | Raise e => Raise e
  end.

Notation "x ← r ;;; k" := (bind r (λ x, k))
  (at level 20, r at level 100, k at level 200, right associativity,
   format "x  ←  r  ;;;  '/' k").

(** A list comprehension whose element expression can raise: elements are
    evaluated left to right and the first exception aborts the whole. *)
Fixpoint comprehension {A B : Type} (f : A → result B) (l : list A) : result (list B) :=
  match l with
  | [] => Ok []
  | x :: l' => y ← f x ;;; ys ← comprehension f l' ;;; Ok (y :: ys)
  end.

Definition HTTP_400_BAD_REQUEST : Z := 400.
Definition HTTP_401_UNAUTHORIZED : Z := 401.
Definition HTTP_403_FORBIDDEN : Z := 403.
Definition HTTP_404_NOT_FOUND : Z := 404.

(** The status code a result carries when it is an [HTTPException]. *)
Definition status_of {A : Type} (r : result A) : option Z :=
  match r with
  | Raise (HTTPException code _) => Some code
  | _ => None
  end.

(** ** Settings ([app/core/config.py]) *)

Module settings.
Definition secret_key : string := "your-super-secret-key-change-this-in-production".
Definition algorithm : string := "HS256".
Definition access_token_expire_minutes : Z := 30.
End settings.

(** ** Models ([app/models/__init__.py]) *)

Inductive UserRole := ADMIN | USER | MODERATOR.

#[global] Instance UserRole_eq_dec : EqDecision UserRole.
Proof. solve_decision. Defined.

(** Instants of the UTC clock, in seconds. *)
Definition datetime := Z.

(** [UserCreate]: [UserBase] plus the plaintext password. *)
Record UserCreate := mkUserCreate {
  uc_username : string;
  uc_email : string;
  uc_full_name : option string;
  uc_role : UserRole;
  uc_is_active : bool;
  uc_password : string
}.

(** The [field_validator] of [UserCreate.password]; it runs whenever a
    [UserCreate] is constructed. [len] is [String.length]. *)
Definition validate_password (v : string) : result string :=
  if (Z.of_nat (String.length v) <? 6)%Z then Raise (ValidationError "password") else Ok v.

Definition UserCreate_new (username email : string) (password : string)
    (full_name : option string) (role : UserRole) (is_active : bool) : result UserCreate :=
  v ← validate_password password ;;;
  Ok (mkUserCreate username email full_name role is_active v).

(** A field of a partial-update model: pydantic records which fields were
    supplied ([Given], also when the supplied value is [None]) and which
    were not ([Unset]). *)
Inductive supplied (A : Type) :=
| Unset
| Given (v : A).
Arguments Unset {A}.
Arguments Given {A} v.

(** [UserUpdate]: every field is [Optional[...] = None]. *)
Record UserUpdate := mkUserUpdate {
  upd_email : supplied (option string);
  upd_full_name : supplied (option string);
  upd_role : supplied (option UserRole);
  upd_is_active : supplied (option bool)
}.

(** [User]: the response model. It is only ever built by its validating
    constructor, so its fields have their declared types. *)
Record User := mkUser {
  User_id : Z;
  User_username : string;
  User_email : string;
  User_full_name : option string;
  User_role : UserRole;
  User_is_active : bool;
  User_created_at : datetime;
  User_updated_at : option datetime
}.

(** [UserInDB]: [User] plus [hashed_password]. [email], [role] and
    [is_active] are declared non-optional, but [copy(update=...)] does not
    validate, so [update_user] can store the [None] that a [UserUpdate]
    supplies; [None] in those three fields models that. *)
Record UserInDB := mkUserInDB {
  db_id : Z;
  db_username : string;
  db_email : option string;
  db_full_name : option string;
  db_role : option UserRole;
  db_is_active : option bool;
  db_created_at : datetime;
  db_updated_at : option datetime;
  db_hashed_password : string
}.

(** *** [.dict()] and the validating constructor *)

(** The values a field of these models holds. *)
Inductive value :=
| VNone
| VInt (z : Z)
| VStr (s : string)
| VBool (b : bool)
| VRole (r : UserRole)
| VDatetime (t : datetime).

Definition of_option {A : Type} (inj : A → value) (o : option A) : value :=
  match o with
  | Some a => inj a
  | None => VNone
  end.

(** [user.dict()] for a [UserInDB]. *)
Definition UserInDB_dict (u : UserInDB) : gmap string value :=
  <["id" := VInt (db_id u)]>
  (<["username" := VStr (db_username u)]>
  (<["email" := of_option VStr (db_email u)]>
  (<["full_name" := of_option VStr (db_full_name u)]>
  (<["role" := of_option VRole (db_role u)]>
  (<["is_active" := of_option VBool (db_is_active u)]>
  (<["created_at" := VDatetime (db_created_at u)]>
  (<["updated_at" := of_option VDatetime (db_updated_at u)]>
  (<["hashed_password" := VStr (db_hashed_password u)]> ∅)))))))).

(** [user.dict()] for a [User]; this is what a response serialises. *)
Definition User_dict (u : User) : gmap string value :=
  <["id" := VInt (User_id u)]>
  (<["username" := VStr (User_username u)]>
  (<["email" := VStr (User_email u)]>
  (<["full_name" := of_option VStr (User_full_name u)]>
  (<["role" := VRole (User_role u)]>
  (<["is_active" := VBool (User_is_active u)]>
  (<["created_at" := VDatetime (User_created_at u)]>
  (<["updated_at" := of_option VDatetime (User_updated_at u)]> ∅))))))).

(** [d] without the keys of [exclude]: the [exclude=] argument of [.dict]. *)
Definition dict_exclude (exclude : gset string) (d : gmap string value) : gmap string value :=
  filter (λ kv, kv.1 ∉ exclude) d.

(** Field validators of the [User] constructor. A required field must be
    present; an explicit [None] is accepted only by an [Optional] field.
    Keys that [User] does not declare are ignored. *)
Definition required_int (d : gmap string value) (k : string) : result Z :=
  match d !! k with
  | Some (VInt z) => Ok z
  | _ => Raise (ValidationError k)
  end.

Definition required_str (d : gmap string value) (k : string) : result string :=
  match d !! k with
  | Some (VStr s) => Ok s
  | _ => Raise (ValidationError k)
  end.

Definition required_datetime (d : gmap string value) (k : string) : result datetime :=
  match d !! k with
  | Some (VDatetime t) => Ok t
  | _ => Raise (ValidationError k)
  end.

Definition optional_str (d : gmap string value) (k : string) : result (option string) :=
  match d !! k with
  | None | Some VNone => Ok None
  | Some (VStr s) => Ok (Some s)
  | Some _ => Raise (ValidationError k)
  end.

Definition optional_datetime (d : gmap string value) (k : string) : result (option datetime) :=
  match d !! k with
  | None | Some VNone => Ok None
  | Some (VDatetime t) => Ok (Some t)
  | Some _ => Raise (ValidationError k)
  end.

Definition default_role (d : gmap string value) (k : string) (dflt : UserRole) : result UserRole :=
  match d !! k with
  | None => Ok dflt
  | Some (VRole r) => Ok r
  | Some _ => Raise (ValidationError k)
  end.

Definition default_bool (d : gmap string value) (k : string) (dflt : bool) : result bool :=
  match d !! k with
  | None => Ok dflt
  | Some (VBool b) => Ok b
  | Some _ => Raise (ValidationError k)
  end.

(** The validating constructor of [User], applied to a keyword dict. *)
Definition User_new (d : gmap string value) : result User :=
  username ← required_str d "username" ;;;
  email ← required_str d "email" ;;;
  full_name ← optional_str d "full_name" ;;;
  role ← default_role d "role" USER ;;;
  is_active ← default_bool d "is_active" true ;;;
  id ← required_int d "id" ;;;
  created_at ← required_datetime d "created_at" ;;;
  updated_at ← optional_datetime d "updated_at" ;;;
  Ok (mkUser id username email full_name role is_active created_at updated_at).

(** The [User] built from [user.dict(exclude = hashed_password)]: the
    expression every response-facing path of the service uses. *)
Definition without_password (u : UserInDB) : result User :=
  User_new (dict_exclude {["hashed_password"]} (UserInDB_dict u)).

(** [user.copy(update=update_data)] where [update_data] is
    [user_update.dict(exclude_unset=True)] extended with [updated_at]:
    supplied fields replace the stored ones, unvalidated; the others are
    kept. *)
Definition overwrite {A : Type} (old : A) (new : supplied A) : A :=
  match new with
  | Given v => v
  | Unset => old
  end.

Definition copy_update (user : UserInDB) (user_update : UserUpdate) (now : datetime) : UserInDB :=
  {| db_id := db_id user;
     db_username := db_username user;
     db_email := overwrite (db_email user) (upd_email user_update);
     db_full_name := overwrite (db_full_name user) (upd_full_name user_update);
     db_role := overwrite (db_role user) (upd_role user_update);
     db_is_active := overwrite (db_is_active user) (upd_is_active user_update);
     db_created_at := db_created_at user;
     db_updated_at := Some now;
     db_hashed_password := db_hashed_password user |}.

(** ** The password hasher ([app.core.security], imported by the service)

    [get_password_hash] and [verify_password] are taken as an interface.
    Hashing is salted: the first argument of [get_password_hash] is the
    randomness one call draws. *)
Class CredentialHasher := {
  get_password_hash : string → string → string;
  verify_password : string → string → bool
}.

(** Modelled from the spec: the contract of the hasher, whose source
    [app/core/security.py] is missing: "every digest must verify against
    its originating plaintext". *)
Definition hasher_sound `{CredentialHasher} : Prop :=
  ∀ salt plaintext, verify_password plaintext (get_password_hash salt plaintext) = true.

(** A small instance, used to run the service on concrete inputs: the digest
    is the plaintext, a separator and the salt; verification compares the
    leading part of the digest. *)
Definition reference_hash (salt plaintext : string) : string :=
  plaintext +:+ "$" +:+ salt.

Definition reference_verify (plaintext digest : string) : bool :=
  String.prefix (plaintext +:+ "$") digest.

Definition reference_hasher : CredentialHasher :=
  {| get_password_hash := reference_hash; verify_password := reference_verify |}.

(** ** Python slices *)

(** How [list[start:stop]] resolves one bound against the length [n]. *)
Definition slice_bound (n i : Z) : Z :=
  if i <? 0 then Z.max (i + n) 0 else Z.min i n.

(** [l[start:stop]]. *)
Definition py_slice {A : Type} (l : list A) (start stop : Z) : list A :=
  let n := Z.of_nat (length l) in
  let lo := slice_bound n start in
  let hi := slice_bound n stop in
  take (Z.to_nat (hi - lo)) (drop (Z.to_nat lo) l).

(** ** The user service ([app/services/user_service.py]) *)

Record UserService := mkUserService {
  _users : list UserInDB;
  _next_id : Z
}.

(** [get_user_by_username]: the first account, in list order, with that
    username. *)
Definition get_user_by_username (self : UserService) (username : string) : option UserInDB :=
  snd <$> list_find (λ user, db_username user = username) (_users self).

(** [get_user_by_email]. An address compares unequal to a stored [None]. *)
Definition get_user_by_email (self : UserService) (email : string) : option UserInDB :=
  snd <$> list_find (λ user, db_email user = Some email) (_users self).

(** [get_user_by_id]. *)
Definition get_user_by_id (self : UserService) (user_id : Z) : result (option User) :=
  match list_find (λ user, db_id user = user_id) (_users self) with
  | Some (_, user) => v ← without_password user ;;; Ok (Some v)
  | None => Ok None
  end.

(** [get_users]. *)
Definition get_users (self : UserService) (skip limit : Z) : result (list User) :=
  let users := py_slice (_users self) skip (skip + limit) in
  comprehension without_password users.

(** [update_user]. The list is written before the response view is built. *)
Definition update_user (now : datetime) (user_id : Z) (user_update : UserUpdate)
    (self : UserService) : UserService * result (option User) :=
  match list_find (λ user, db_id user = user_id) (_users self) with
  | Some (i, user) =>
      let updated_user := copy_update user user_update now in
      let self' := mkUserService (<[i := updated_user]> (_users self)) (_next_id self) in
      (self', v ← without_password updated_user ;;; Ok (Some v))
  | None => (self, Ok None)
  end.

(** [delete_user]. *)
Definition delete_user (user_id : Z) (self : UserService) : UserService * bool :=
  match list_find (λ user, db_id user = user_id) (_users self) with
  | Some (i, _) => (mkUserService (delete i (_users self)) (_next_id self), true)
  | None => (self, false)
  end.

Section Service.
Context `{CredentialHasher}.

(** [create_user]. A model instance is truthy, so the two guards test
    whether the lookups found an account. *)
Definition create_user (now : datetime) (salt : string) (user_create : UserCreate)
    (self : UserService) : UserService * result User :=
  if get_user_by_username self (uc_username user_create) is Some _ then
    (self, Raise (HTTPException HTTP_400_BAD_REQUEST "Username already registered"))
  else if get_user_by_email self (uc_email user_create) is Some _ then
    (self, Raise (HTTPException HTTP_400_BAD_REQUEST "Email already registered"))
  else
    let hashed_password := get_password_hash salt (uc_password user_create) in
    let user_in_db :=
      {| db_id := _next_id self;
         db_username := uc_username user_create;
         db_email := Some (uc_email user_create);
         db_full_name := uc_full_name user_create;
         db_role := Some (uc_role user_create);
         db_is_active := Some (uc_is_active user_create);
         db_created_at := now;
         db_updated_at := None;
         db_hashed_password := hashed_password |} in
    let self' := mkUserService (_users self ++ [user_in_db]) (_next_id self + 1) in
    (self', without_password user_in_db).

(** [authenticate_user]: [None] on either failure. *)
Definition authenticate_user (self : UserService) (username password : string) : option UserInDB :=
  match get_user_by_username self username with
  | None => None
  | Some user =>
      if negb (verify_password password (db_hashed_password user)) then None
      else Some user
  end.

(** [_create_default_users], run by [__init__] on the empty store. The
    two [create_user] calls read the clock at [t1], [t2] and draw the
    salts [r1], [r2]; an exception of either would leave [__init__]. *)
Definition _create_default_users (t1 t2 : datetime) (r1 r2 : string)
    (self : UserService) : result UserService :=
  admin_user ← UserCreate_new "admin" "admin@example.com" "admin123"
                 (Some "Administrator") ADMIN true ;;;
  let (self1, created1) := create_user t1 r1 admin_user self in
  _ ← created1 ;;;
  regular_user ← UserCreate_new "john_doe" "john@example.com" "user123"
                   (Some "John Doe") USER true ;;;
  let (self2, created2) := create_user t2 r2 regular_user self1 in
  _ ← created2 ;;;
  Ok self2.

Definition UserService_init (t1 t2 : datetime) (r1 r2 : string) : result UserService :=
  _create_default_users t1 t2 r1 r2 (mkUserService [] 1).

(** The operations that change the store, and the states they reach from
    a freshly constructed service. *)
Inductive operation :=
| Create (now : datetime) (salt : string) (user_create : UserCreate)
| Update (now : datetime) (user_id : Z) (user_update : UserUpdate)
| Delete (user_id : Z).

Definition run (o : operation) (self : UserService) : UserService :=
  match o with
  | Create now salt user_create => (create_user now salt user_create self).1
  | Update now user_id user_update => (update_user now user_id user_update self).1
  | Delete user_id => (delete_user user_id self).1
  end.

Inductive reachable : UserService → Prop :=
| reachable_init t1 t2 r1 r2 self :
    UserService_init t1 t2 r1 r2 = Ok self → reachable self
| reachable_run o self :
    reachable self → reachable (run o self).
End Service.

(** The store invariants of the data model. *)
Definition unique_usernames (self : UserService) : Prop :=
  NoDup (db_username <$> _users self).

Definition unique_emails (self : UserService) : Prop :=
  NoDup (db_email <$> _users self).

(** Ids grow along the list, start at 1 and stay below the counter. *)
Definition ids_increasing (self : UserService) : Prop :=
  StronglySorted Z.lt (db_id <$> _users self) ∧
  Forall (λ i, 1 ≤ i < _next_id self) (db_id <$> _users self) ∧
  1 ≤ _next_id self.

(** A stored record whose three validated fields hold values of their
    declared types. *)
Definition well_typed (u : UserInDB) : Prop :=
  is_Some (db_email u) ∧ is_Some (db_role u) ∧ is_Some (db_is_active u).

(** [v] is [u] without the password hash. *)
Definition view_of (u : UserInDB) (v : User) : Prop :=
  User_id v = db_id u ∧
  User_username v = db_username u ∧
  db_email u = Some (User_email v) ∧
  User_full_name v = db_full_name u ∧
  db_role u = Some (User_role v) ∧
  db_is_active u = Some (User_is_active v) ∧
  User_created_at v = db_created_at u ∧
  User_updated_at v = db_updated_at u.

(** ** The token codec ([app.core.security], imported by [app/api/auth.py]) *)

Module TokenCodec.
(** Modelled from the spec: the payload of an identity token, which
    "carries subject (username), issuedAt, expiresAt"; the module
    [app/core/security.py] that builds it is not part of the sources. *)
Record claims := mkClaims {
  sub : string;
  issued_at : datetime;
  expires_at : datetime
}.

(** Modelled from the spec: the signature "covers subject and both
    timestamps; any mutation of the payload must invalidate the
    signature". The signing function of [app/core/security.py] is missing,
    so a tag is kept symbolic: it records the key and the payload it was
    computed from. *)
Record signature := mkSignature {
  signed_with : string;
  signed_claims : claims
}.

#[global] Instance claims_eq_dec : EqDecision claims.
Proof. solve_decision. Defined.

#[global] Instance signature_eq_dec : EqDecision signature.
Proof. solve_decision. Defined.

(** Modelled from the spec: what a caller can present as a token, either
    a string that "cannot be parsed" or a payload with a signature. *)
Inductive token :=
| Unparseable (raw : string)
| Signed (payload : claims) (tag : signature).

(** Modelled from the spec: the two ways [verify] fails; the source that
    raises them, [verify_token], is missing. *)
Inductive failure := Malformed | Expired.

(** Modelled from the spec: signing under the process-wide secret
    (missing [app/core/security.py]). *)
Definition sign (key : string) (payload : claims) : signature :=
  mkSignature key payload.

(** Modelled from the spec: [issue(subject, now, ttl)] "produces a signed
    token embedding subject, issuedAt = now, expiresAt = now + ttl"
    (missing [create_access_token]). *)
Definition issue (subject : string) (now ttl : Z) : token :=
  let payload := mkClaims subject now (now + ttl) in
  Signed payload (sign settings.secret_key payload).

(** Modelled from the spec: [verify(token, now)] "fails with Malformed if
    the token cannot be parsed or the signature does not match; fails
    with Expired if now > expiresAt. On success returns subject only"
    (section 4.2); a token is "Valid (while now < expiresAt ...)" and
    "Expired (now ≥ expiresAt)" (section 4.4), and the round trip of
    section 8 returns [Expired] "for any now' ≥ now+ttl". The test
    [expiresAt <= now] is the one that meets the three sentences: it
    fails whenever [now > expiresAt], and succeeds only while
    [now < expiresAt] (missing [verify_token]). *)
Definition verify (t : token) (now : Z) : failure + string :=
  match t with
  | Unparseable _ => inl Malformed
  | Signed payload tag =>
      if decide (tag = sign settings.secret_key payload) then
        if expires_at payload <=? now then inl Expired else inr (sub payload)
      else inl Malformed
  end.
End TokenCodec.

(** ** Authentication endpoints and dependencies ([app/api/auth.py]) *)

Module auth.
Definition credentials_exception : exn :=
  HTTPException HTTP_401_UNAUTHORIZED "Could not validate credentials".

(** [get_current_user]. [verify_token] raises on a token that does not
    verify; the design document has every such failure surface as the
    same 401. *)
Definition get_current_user (self : UserService) (token : TokenCodec.token)
    (now : datetime) : result User :=
  match TokenCodec.verify token now with
  | inl _ => Raise credentials_exception
  | inr username =>
      match get_user_by_username self username with
      | None => Raise credentials_exception
      | Some user => without_password user
      end
  end.

(** [get_current_active_user]; its argument is what [get_current_user]
    returned. *)
Definition get_current_active_user (current_user : User) : result User :=
  if negb (User_is_active current_user) then
    Raise (HTTPException 400 "Inactive user")
  else Ok current_user.

(** [login_for_access_token]; [timedelta(minutes=m)] is [60 * m] seconds. *)
Definition login_for_access_token `{CredentialHasher} (self : UserService)
    (username password : string) (now : datetime) : result (TokenCodec.token * string) :=
  match authenticate_user self username password with
  | None => Raise (HTTPException HTTP_401_UNAUTHORIZED "Incorrect username or password")
  | Some user =>
      let access_token_expires := 60 * settings.access_token_expire_minutes in
      let access_token := TokenCodec.issue (db_username user) now access_token_expires in
      Ok (access_token, "bearer")
  end.

(** [register_user]: the request body is validated into a [UserCreate]
    before the handler runs. *)
Definition register_user `{CredentialHasher} (now : datetime) (salt : string)
    (username email password : string) (full_name : option string)
    (role : UserRole) (is_active : bool) (self : UserService) : UserService * result User :=
  match UserCreate_new username email password full_name role is_active with
  | Raise e => (self, Raise e)
  | Ok user_create => create_user now salt user_create self
  end.
End auth.

(** ** User management endpoints ([app/api/users.py]) *)

Module users.
(** [get_admin_user]; its argument is what [get_current_active_user]
    returned. *)
Definition get_admin_user (current_user : User) : result User :=
  if decide (User_role current_user ≠ ADMIN) then
    Raise (HTTPException HTTP_403_FORBIDDEN "Not enough permissions")
  else Ok current_user.

(** How the framework resolves [Depends(get_current_active_user)] and
    [Depends(get_admin_user)] for the principal [get_current_user]
    produced: innermost dependency first. *)
Definition active_principal (principal : User) : result User :=
  auth.get_current_active_user principal.

Definition admin_principal (principal : User) : result User :=
  current_user ← auth.get_current_active_user principal ;;;
  get_admin_user current_user.

(** [create_user] (POST): admin only. *)
Definition create_user `{CredentialHasher} (now : datetime) (salt : string)
    (user_create : UserCreate) (principal : User) (self : UserService)
    : UserService * result User :=
  match admin_principal principal with
  | Raise e => (self, Raise e)
  | Ok _ => create_user now salt user_create self
  end.

(** [update_user] (PUT). *)
Definition update_user (now : datetime) (user_id : Z) (user_update : UserUpdate)
    (principal : User) (self : UserService) : UserService * result User :=
  match active_principal principal with
  | Raise e => (self, Raise e)
  | Ok current_user =>
      if bool_decide (User_id current_user ≠ user_id)
         && bool_decide (User_role current_user ≠ ADMIN) then
        (self, Raise (HTTPException HTTP_403_FORBIDDEN "Not enough permissions"))
      else
        match update_user now user_id user_update self with
        | (self', Raise e) => (self', Raise e)
        | (self', Ok None) => (self', Raise (HTTPException HTTP_404_NOT_FOUND "User not found"))
        | (self', Ok (Some updated_user)) => (self', Ok updated_user)
        end
  end.

(** [delete_user] (DELETE): admin only. *)
Definition delete_user (user_id : Z) (principal : User) (self : UserService)
    : UserService * result string :=
  match admin_principal principal with
  | Raise e => (self, Raise e)
  | Ok _ =>
      match delete_user user_id self with
      | (self', false) => (self', Raise (HTTPException HTTP_404_NOT_FOUND "User not found"))
      | (self', true) => (self', Ok "User deleted successfully")
      end
  end.
End users.

(** ** A concrete service, used to run the operations on explicit inputs *)

(** The service as [__init__] leaves it, under the reference hasher. *)
Definition fresh_service : UserService :=
  match @UserService_init reference_hasher 0 0 "salt-1" "salt-2" with
  | Ok self => self
  | Raise _ => mkUserService [] 1
  end.

(** Running a sequence of operations, oldest first. *)
Definition run_all `{CredentialHasher} (ops : list operation) (self : UserService) : UserService :=
  foldl (λ s o, run o s) self ops.

Definition is_create (o : operation) : bool :=
  match o with
  | Create _ _ _ => true
  | _ => false
  end.

(** [v] is a response view of an account of the store: it is what remains
    of a stored, hash-bearing record once the hash is left out. *)
Definition public_view_in (self : UserService) (v : User) : Prop :=
  ("hashed_password" ∉ dom (User_dict v)) ∧
  (∃ u, u ∈ _users self ∧ view_of u v ∧ "hashed_password" ∈ dom (UserInDB_dict u)).

(** The request body that supplies [role] alone. *)
Definition role_update (role : UserRole) : UserUpdate :=
  mkUserUpdate Unset Unset (Given (Some role)) Unset.

(** ** The read endpoints of [app/api/users.py] *)

(** [Query(default, ge=lo, le=hi)] on an int parameter: a value outside
    the bounds is refused with a request validation error that names the
    parameter. The framework resolves the dependencies of a handler before
    it validates the handler's own parameters. *)
Definition Query (ge le : option Z) (name : string) (value : Z) : result Z :=
  if from_option (λ lo, lo <=? value) true ge
     && from_option (λ hi, value <=? hi) true le
  then Ok value
  else Raise (ValidationError name).

Module users_get.
(** [get_users] (GET /): [skip: Query(0, ge=0)], [limit: Query(100, ge=1,
    le=100)], any active principal. *)
Definition get_users (skip limit : Z) (principal : User) (self : UserService)
    : result (list User) :=
  _ ← users.active_principal principal ;;;
  skip ← Query (Some 0) None "skip" skip ;;;
  limit ← Query (Some 1) (Some 100) "limit" limit ;;;
  get_users self skip limit.

End users_get.

(** ** Products ([app/models/__init__.py]) *)

Inductive ProductCategory := ELECTRONICS | CLOTHING | BOOKS | HOME | SPORTS.

#[global] Instance ProductCategory_eq_dec : EqDecision ProductCategory.
Proof. solve_decision. Defined.

(** [ProductCreate]: the fields of [ProductBase]; [price] is a binary64
    float. *)
Record ProductCreate := mkProductCreate {
  pc_name : string;
  pc_description : option string;
  pc_price : PrimFloat.float;
  pc_category : ProductCategory;
  pc_in_stock : bool;
  pc_stock_quantity : Z
}.

(** The [field_validator] of [ProductBase.price]: [v < 0] is refused. It
    runs whenever a [ProductCreate] or a [Product] is constructed. *)
Definition validate_price (v : PrimFloat.float) : result PrimFloat.float :=
  if PrimFloat.ltb v PrimFloat.zero then Raise (ValidationError "price") else Ok v.

Definition ProductCreate_new (name : string) (description : option string)
    (price : PrimFloat.float) (category : ProductCategory) (in_stock : bool)
    (stock_quantity : Z) : result ProductCreate :=
  v ← validate_price price ;;;
  Ok (mkProductCreate name description v category in_stock stock_quantity).

(** [ProductUpdate]: every field is [Optional[...] = None], and none has a
    validator. *)
Record ProductUpdate := mkProductUpdate {
  pu_name : supplied (option string);
  pu_description : supplied (option string);
  pu_price : supplied (option PrimFloat.float);
  pu_category : supplied (option ProductCategory);
  pu_in_stock : supplied (option bool);
  pu_stock_quantity : supplied (option Z)
}.

(** [Product] as the service stores it. The service keeps the result of
    [copy(update=...)], which is not validated, so every field a
    [ProductUpdate] can supply can hold the [None] it supplies. *)
Record Product := mkProduct {
  p_id : Z;
  p_name : option string;
  p_description : option string;
  p_price : option PrimFloat.float;
  p_category : option ProductCategory;
  p_in_stock : option bool;
  p_stock_quantity : option Z;
  p_created_at : datetime;
  p_updated_at : option datetime
}.

(** ** Text search helpers *)

(** [str.lower] on one character of the 256: the letters A to Z and the
    accented capitals (192 to 222, the multiplication sign 215 apart) move
    up by 32. *)
Definition lower_char (c : Ascii.ascii) : Ascii.ascii :=
  let n := Ascii.nat_of_ascii c in
  if ((65 <=? n) && (n <=? 90) ||
      (192 <=? n) && (n <=? 222) && negb (n =? 215))%nat
  then Ascii.ascii_of_nat (n + 32)
  else c.

Fixpoint lower (s : string) : string :=
  match s with
  | EmptyString => EmptyString
  | String c s' => String (lower_char c) (lower s')
  end.

(** [needle in haystack] for strings. *)
Fixpoint contains (needle haystack : string) : bool :=
  String.prefix needle haystack ||
  match haystack with
  | EmptyString => false
  | String _ rest => contains needle rest
  end.

(** ** The product service ([app/services/product_service.py]) *)

Module product_service.
Record ProductService := mkProductService {
  _products : list Product;
  _next_id : Z
}.

(** [create_product]. The [Product] constructor validates the price again
    before anything is stored. *)
Definition create_product (now : datetime) (product_create : ProductCreate)
    (self : ProductService) : ProductService * result Product :=
  match validate_price (pc_price product_create) with
  | Raise e => (self, Raise e)
  | Ok price =>
      let product :=
        {| p_id := _next_id self;
           p_name := Some (pc_name product_create);
           p_description := pc_description product_create;
           p_price := Some price;
           p_category := Some (pc_category product_create);
           p_in_stock := Some (pc_in_stock product_create);
           p_stock_quantity := Some (pc_stock_quantity product_create);
           p_created_at := now;
           p_updated_at := None |} in
      (mkProductService (_products self ++ [product]) (_next_id self + 1),
       Ok product)
  end.

(** [get_product_by_id]. *)
Definition get_product_by_id (self : ProductService) (product_id : Z) : option Product :=
  snd <$> list_find (λ product, p_id product = product_id) (_products self).

(** [get_products]. A category is a non-empty string, hence truthy, so
    [if category] tests that one was given. *)
Definition get_products (self : ProductService) (skip limit : Z)
    (category : option ProductCategory) (in_stock : option bool) : list Product :=
  let products := _products self in
  let products :=
    match category with
    | Some c => filter (λ p, p_category p = Some c) products
    | None => products
    end in
  let products :=
    match in_stock with
    | Some b => filter (λ p, p_in_stock p = Some b) products
    | None => products
    end in
  py_slice products skip (skip + limit).

(** What the two optional filters of [get_products] let through. *)
Definition wanted (category : option ProductCategory) (in_stock : option bool)
    (p : Product) : Prop :=
  from_option (λ c, p_category p = Some c) True category ∧
  from_option (λ b, p_in_stock p = Some b) True in_stock.

#[global] Instance wanted_dec category in_stock p :
  Decision (wanted category in_stock p).
Proof. destruct category, in_stock; unfold wanted; simpl; apply _. Defined.

Definition copy_update (product : Product) (product_update : ProductUpdate)
    (now : datetime) : Product :=
  {| p_id := p_id product;
     p_name := overwrite (p_name product) (pu_name product_update);
     p_description := overwrite (p_description product) (pu_description product_update);
     p_price := overwrite (p_price product) (pu_price product_update);
     p_category := overwrite (p_category product) (pu_category product_update);
     p_in_stock := overwrite (p_in_stock product) (pu_in_stock product_update);
     p_stock_quantity :=
       overwrite (p_stock_quantity product) (pu_stock_quantity product_update);
     p_created_at := p_created_at product;
     p_updated_at := Some now |}.

(** [update_product]: the copy is stored and returned as it is. *)
Definition update_product (now : datetime) (product_id : Z)
    (product_update : ProductUpdate) (self : ProductService)
    : ProductService * option Product :=
  match list_find (λ product, p_id product = product_id) (_products self) with
  | Some (i, product) =>
      let updated_product := copy_update product product_update now in
      (mkProductService (<[i := updated_product]> (_products self)) (_next_id self),
       Some updated_product)
  | None => (self, None)
  end.

(** [delete_product]. *)
Definition delete_product (product_id : Z) (self : ProductService)
    : ProductService * bool :=
  match list_find (λ product, p_id product = product_id) (_products self) with
  | Some (i, _) => (mkProductService (delete i (_products self)) (_next_id self), true)
  | None => (self, false)
  end.

(** The test of [search_products] on one product; [None] is the
    [AttributeError] of [.lower()] on a name that is [None]. An empty or
    missing description is falsy and is not searched. *)
Definition matches (query : string) (product : Product) : option bool :=
  match p_name product with
  | None => None
  | Some name =>
      Some (contains query (lower name) ||
            match p_description product with
            | Some description =>
                negb (bool_decide (description = ""))
                && contains query (lower description)
            | None => false
            end)
  end.

(** [search_products]; [None] when the comprehension raises. *)
Fixpoint search_in (query : string) (products : list Product) : option (list Product) :=
  match products with
  | [] => Some []
  | product :: rest =>
      match matches query product, search_in query rest with
      | Some hit, Some found => Some (if hit then product :: found else found)
      | _, _ => None
      end
  end.

Definition search_products (self : ProductService) (query : string)
    : option (list Product) :=
  search_in (lower query) (_products self).

(** [_create_sample_products], run by [__init__] on the empty store; the
    three [create_product] calls read the clock at [t1], [t2], [t3]. *)
Definition sample_products : list (result ProductCreate) :=
  [ProductCreate_new "MacBook Pro" (Some "Apple MacBook Pro 16-inch with M2 chip")
     2499.99%float ELECTRONICS true 10;
   ProductCreate_new "Nike Air Max" (Some "Comfortable running shoes")
     120%float SPORTS true 25;
   ProductCreate_new "Python Programming Book"
     (Some "Learn Python programming from scratch") 29.99%float BOOKS true 50].

Fixpoint create_all (inputs : list (datetime * ProductCreate))
    (self : ProductService) : result ProductService :=
  match inputs with
  | [] => Ok self
  | (now, product_create) :: rest =>
      let (self', created) := create_product now product_create self in
      _ ← created ;;;
      create_all rest self'
  end.

Definition ProductService_init (t1 t2 t3 : datetime) : result ProductService :=
  samples ← comprehension id sample_products ;;;
  create_all (zip [t1; t2; t3] samples) (mkProductService [] 1).

(** The operations that change the product store and the states they
    reach. *)
Inductive operation :=
| Create (now : datetime) (product_create : ProductCreate)
| Update (now : datetime) (product_id : Z) (product_update : ProductUpdate)
| Delete (product_id : Z).

Definition run (o : operation) (self : ProductService) : ProductService :=
  match o with
  | Create now product_create => (create_product now product_create self).1
  | Update now product_id product_update =>
      (update_product now product_id product_update self).1
  | Delete product_id => (delete_product product_id self).1
  end.

Inductive reachable : ProductService → Prop :=
| reachable_init t1 t2 t3 self :
    ProductService_init t1 t2 t3 = Ok self → reachable self
| reachable_run o self :
    reachable self → reachable (run o self).

(** The product service as [__init__] leaves it. *)
Definition fresh : ProductService :=
  match ProductService_init 0 0 0 with
  | Ok self => self
  | Raise _ => mkProductService [] 1
  end.

(** Running a sequence of operations, oldest first. *)
Definition run_all (ops : list operation) (self : ProductService) : ProductService :=
  foldl (λ s o, run o s) self ops.

(** The operations that leave a missing name of product [product_id] as
    it is: they neither delete that product nor update it with a name. *)
Definition keeps_null_name (product_id : Z) (o : operation) : bool :=
  match o with
  | Create _ _ => true
  | Update _ id product_update =>
      negb (bool_decide (id = product_id)) ||
      match pu_name product_update with
      | Given (Some _) => false
      | _ => true
      end
  | Delete id => negb (bool_decide (id = product_id))
  end.
End product_service.

(** ** Product endpoints ([app/api/products.py]) *)

Module products.
(** [get_admin_user], the module's own copy of the admin dependency. *)
Definition get_admin_user (current_user : User) : result User :=
  if decide (User_role current_user ≠ ADMIN) then
    Raise (HTTPException HTTP_403_FORBIDDEN "Not enough permissions")
  else Ok current_user.

Definition admin_principal (principal : User) : result User :=
  current_user ← auth.get_current_active_user principal ;;;
  get_admin_user current_user.

(** [get_products] (GET /): public. *)
Definition get_products (skip limit : Z) (category : option ProductCategory)
    (in_stock : option bool) (self : product_service.ProductService)
    : result (list Product) :=
  skip ← Query (Some 0) None "skip" skip ;;;
  limit ← Query (Some 1) (Some 100) "limit" limit ;;;
  Ok (product_service.get_products self skip limit category in_stock).

(** [get_product] (GET /{product_id}): public. *)
Definition get_product (product_id : Z) (self : product_service.ProductService)
    : result Product :=
  match product_service.get_product_by_id self product_id with
  | None => Raise (HTTPException HTTP_404_NOT_FOUND "Product not found")
  | Some product => Ok product
  end.

(** [create_product] (POST /): admin only. *)
Definition create_product (now : datetime) (product_create : ProductCreate)
    (principal : User) (self : product_service.ProductService)
    : product_service.ProductService * result Product :=
  match admin_principal principal with
  | Raise e => (self, Raise e)
  | Ok _ => product_service.create_product now product_create self
  end.

(** [update_product] (PUT /{product_id}): admin only. *)
Definition update_product (now : datetime) (product_id : Z)
    (product_update : ProductUpdate) (principal : User)
    (self : product_service.ProductService)
    : product_service.ProductService * result Product :=
  match admin_principal principal with
  | Raise e => (self, Raise e)
  | Ok _ =>
      match product_service.update_product now product_id product_update self with
      | (self', None) =>
          (self', Raise (HTTPException HTTP_404_NOT_FOUND "Product not found"))
      | (self', Some updated_product) => (self', Ok updated_product)
      end
  end.

(** [delete_product] (DELETE /{product_id}): admin only. *)
Definition delete_product (product_id : Z) (principal : User)
    (self : product_service.ProductService)
    : product_service.ProductService * result string :=
  match admin_principal principal with
  | Raise e => (self, Raise e)
  | Ok _ =>
      match product_service.delete_product product_id self with
      | (self', false) =>
          (self', Raise (HTTPException HTTP_404_NOT_FOUND "Product not found"))
      | (self', true) => (self', Ok "Product deleted successfully")
      end
  end.
End products.

(** ** File validation ([app/api/files.py]) *)

(** The separator of path components and of extensions: the characters
    [/] (47) and [.] (46). *)
Definition sep : Ascii.ascii := Ascii.ascii_of_nat 47.
Definition extsep : Ascii.ascii := Ascii.ascii_of_nat 46.

(** [s.rfind(c)] for a one-character [c]: the index of its last occurrence,
    [-1] when there is none. *)
Fixpoint rfind (c : Ascii.ascii) (s : string) : Z :=
  match s with
  | EmptyString => -1
  | String a rest =>
      let r := rfind c rest in
      if 0 <=? r then 1 + r else if decide (a = c) then 0 else -1
  end.

(** [s[:n]] and [s[n:]] for [n >= 0]. *)
Fixpoint string_take (n : nat) (s : string) : string :=
  match n, s with
  | S n', String a rest => String a (string_take n' rest)
  | _, _ => EmptyString
  end.

Fixpoint string_drop (n : nat) (s : string) : string :=
  match n, s with
  | S n', String _ rest => string_drop n' rest
  | _, _ => s
  end.

(** Whether [c] occurs in [s]. *)
Fixpoint has_char (c : Ascii.ascii) (s : string) : bool :=
  match s with
  | EmptyString => false
  | String a rest => bool_decide (a = c) || has_char c rest
  end.

Fixpoint all_dots (s : string) : bool :=
  match s with
  | EmptyString => true
  | String a rest => bool_decide (a = extsep) && all_dots rest
  end.

(** [os.path.splitext] of [posixpath]: the extension starts at the last
    dot of the last path component, unless only dots precede it there. *)
Definition splitext (p : string) : string * string :=
  let sepIndex := rfind sep p in
  let dotIndex := rfind extsep p in
  if sepIndex <? dotIndex then
    let filenameIndex := sepIndex + 1 in
    let leading :=
      string_take (Z.to_nat (dotIndex - filenameIndex))
        (string_drop (Z.to_nat filenameIndex) p) in
    if all_dots leading then (p, "")
    else (string_take (Z.to_nat dotIndex) p, string_drop (Z.to_nat dotIndex) p)
  else (p, "").

Module files.
Definition ALLOWED_EXTENSIONS : gset string :=
  {[".jpg"; ".jpeg"; ".png"; ".gif"; ".pdf"; ".txt"; ".docx"; ".xlsx"]}.

Definition MAX_FILE_SIZE : Z := 10 * 1024 * 1024.

(** What the handlers read of an [UploadFile]. *)
Record UploadFile := mkUploadFile {
  filename : option string;
  content_type : option string;
  content : list Ascii.ascii
}.

(** [', '.join(...)]. *)
Fixpoint join (glue : string) (parts : list string) : string :=
  match parts with
  | [] => ""
  | [part] => part
  | part :: rest => part +:+ glue +:+ join glue rest
  end.

(** [validate_file]. The refusal of an extension lists the allowed ones
    in the iteration order of the set, which the language leaves open;
    [order] is that order. *)
Definition validate_file (order : list string) (file : UploadFile) : result unit :=
  match filename file with
  | None | Some EmptyString =>
      Raise (HTTPException HTTP_400_BAD_REQUEST "No file name provided")
  | Some name =>
      let file_extension := lower (splitext name).2 in
      if decide (file_extension ∈ ALLOWED_EXTENSIONS) then Ok tt
      else
        Raise (HTTPException HTTP_400_BAD_REQUEST
                 ("File type not allowed. Allowed types: " +:+ join ", " order))
  end.

Definition UPLOAD_DIRECTORY : string := "uploads".

(** [FileInfo] and [UploadResponse] of [app/models/__init__.py]. *)
Record FileInfo := mkFileInfo {
  fi_filename : string;
  fi_content_type : string;
  fi_size : Z;
  fi_uploaded_at : datetime
}.

Record UploadResponse := mkUploadResponse {
  ur_message : string;
  ur_file_info : FileInfo;
  ur_file_url : option string
}.

(** [x or d] for an optional string: [None] and the empty string are
    falsy. *)
Definition or_else (x : option string) (d : string) : string :=
  match x with
  | None | Some EmptyString => d
  | Some s => s
  end.

(** How an f-string prints an optional string. *)
Definition fstring (x : option string) : string :=
  match x with
  | None => "None"
  | Some s => s
  end.

Fixpoint ends_with_sep (s : string) : bool :=
  match s with
  | EmptyString => false
  | String a EmptyString => bool_decide (a = sep)
  | String _ rest => ends_with_sep rest
  end.

(** [os.path.join(a, b)] of [posixpath]. *)
Definition path_join (a b : string) : string :=
  if String.prefix "/" b then b
  else if bool_decide (a = "") || ends_with_sep a then a +:+ b
  else a +:+ "/" +:+ b.

(** The upload directory: path to content. Writing a file is taken to
    succeed. *)
Definition store (path : string) (data : list Ascii.ascii)
    (disk : gmap string (list Ascii.ascii)) : gmap string (list Ascii.ascii) :=
  <[path := data]> disk.

(** The part of both handlers that saves an accepted file: [uuid] is the
    [uuid.uuid4()] the call draws and [now] its clock reading. The name
    is there, because [validate_file] has passed. *)
Definition save (uuid : string) (now : datetime) (file : UploadFile)
    (disk : gmap string (list Ascii.ascii))
    : gmap string (list Ascii.ascii) * UploadResponse :=
  let name := default "" (filename file) in
  let file_extension := (splitext name).2 in
  let unique_filename := uuid +:+ file_extension in
  let file_path := path_join UPLOAD_DIRECTORY unique_filename in
  let file_info :=
    mkFileInfo name (or_else (content_type file) "application/octet-stream")
      (Z.of_nat (length (content file))) now in
  (store file_path (content file) disk,
   mkUploadResponse "File uploaded successfully" file_info
     (Some ("/files/" +:+ unique_filename))).

(** [upload_file] (POST /single), any active principal. *)
Definition upload_file (uuid : string) (now : datetime) (order : list string)
    (file : UploadFile) (principal : User)
    (disk : gmap string (list Ascii.ascii))
    : gmap string (list Ascii.ascii) * result UploadResponse :=
  match users.active_principal principal with
  | Raise e => (disk, Raise e)
  | Ok _ =>
      match validate_file order file with
      | Raise e => (disk, Raise e)
      | Ok _ =>
          if MAX_FILE_SIZE <? Z.of_nat (length (content file)) then
            (disk, Raise (HTTPException HTTP_400_BAD_REQUEST
                            "File too large. Maximum size: 10MB"))
          else
            let (disk', response) := save uuid now file disk in
            (disk', Ok response)
      end
  end.

(** [e.detail] of the exception the loop catches; [validate_file] raises
    nothing but [HTTPException]. *)
Definition detail (e : exn) : string :=
  match e with
  | HTTPException _ d => d
  | ValidationError field => field
  end.

(** One round of the loop of [upload_files]: whatever [validate_file]
    raises is caught and reported in the response. *)
Definition upload_one (order : list string) (uuid : string) (now : datetime)
    (file : UploadFile) (disk : gmap string (list Ascii.ascii))
    : gmap string (list Ascii.ascii) * UploadResponse :=
  match validate_file order file with
  | Raise e =>
      (disk,
       mkUploadResponse
         ("Error uploading " +:+ fstring (filename file) +:+ ": " +:+ detail e)
         (mkFileInfo (or_else (filename file) "unknown") "unknown" 0 now)
         None)
  | Ok _ =>
      if MAX_FILE_SIZE <? Z.of_nat (length (content file)) then
        (disk,
         mkUploadResponse ("File " +:+ fstring (filename file) +:+ " too large")
           (mkFileInfo (or_else (filename file) "unknown") "unknown"
              (Z.of_nat (length (content file))) now)
           None)
      else save uuid now file disk
  end.

Fixpoint upload_each (order : list string)
    (files : list (UploadFile * (string * datetime)))
    (disk : gmap string (list Ascii.ascii))
    : gmap string (list Ascii.ascii) * list UploadResponse :=
  match files with
  | [] => (disk, [])
  | (file, (uuid, now)) :: rest =>
      let (disk1, response) := upload_one order uuid now file disk in
      let (disk2, responses) := upload_each order rest disk1 in
      (disk2, response :: responses)
  end.

(** [upload_files] (POST /multiple), any active principal; every file
    comes with the uuid and the clock reading its round uses. *)
Definition upload_files (order : list string)
    (files : list (UploadFile * (string * datetime))) (principal : User)
    (disk : gmap string (list Ascii.ascii))
    : gmap string (list Ascii.ascii) * result (list UploadResponse) :=
  match users.active_principal principal with
  | Raise e => (disk, Raise e)
  | Ok _ =>
      if (5 <? length files)%nat then
        (disk, Raise (HTTPException HTTP_400_BAD_REQUEST
                        "Maximum 5 files allowed per request"))
      else
        let (disk', responses) := upload_each order files disk in
        (disk', Ok responses)
  end.
End files.

Definition is_update (o : operation) : bool :=
  match o with
  | Update _ _ _ => true
  | _ => false
  end.

(** [o] is a [create_user] call for [username]. *)
Definition registers (username : string) (o : operation) : bool :=
  match o with
  | Create _ _ user_create => bool_decide (uc_username user_create = username)
  | _ => false
  end.

(** * Properties *)

(** ** The response view *)

Lemma without_password_ok u e r a :
  db_email u = Some e → db_role u = Some r → db_is_active u = Some a →
  without_password u =
    Ok (mkUser (db_id u) (db_username u) e (db_full_name u) r a
               (db_created_at u) (db_updated_at u)).
Proof.
  destruct u as [i n em fn ro ac ca ua hp]; simpl.
  intros -> -> ->. destruct fn, ua; vm_compute; reflexivity.
Qed.

Lemma without_password_view u v : without_password u = Ok v → view_of u v.
Proof.
  destruct u as [i n [e|] fn [r|] [a|] ca ua hp];
    destruct fn, ua; vm_compute; intros Hv; try discriminate Hv;
    injection Hv as <-; repeat split.
Qed.


Lemma User_dict_dom v :
  dom (User_dict v) =
    ({["id"; "username"; "email"; "full_name"; "role"; "is_active";
       "created_at"; "updated_at"]} : gset string).
Proof. destruct v. vm_compute. reflexivity. Qed.

(** ** The reference hasher meets the hasher contract *)

Lemma prefix_append s t : String.prefix s (s +:+ t) = true.
Proof.
  induction s as [|a s IH].
  - by destruct t.
  - change (String a s +:+ t) with (String a (s +:+ t)). simpl.
    destruct (Ascii.ascii_dec a a); [exact IH | congruence].
Qed.

Lemma append_assoc (s t u : string) : (s +:+ t) +:+ u = s +:+ (t +:+ u).
Proof.
  induction s as [|a s IH]; [done|].
  change (String a ((s +:+ t) +:+ u) = String a (s +:+ (t +:+ u))).
  by rewrite IH.
Qed.

Lemma reference_hasher_sound : @hasher_sound reference_hasher.
Proof.
  intros salt plaintext.
  change (String.prefix (plaintext +:+ "$") (plaintext +:+ ("$" +:+ salt)) = true).
  rewrite <- (append_assoc plaintext "$" salt). apply prefix_append.
Qed.

(** ** Lookups *)

Lemma get_user_by_username_None self username :
  get_user_by_username self username = None ↔
  ∀ u, u ∈ _users self → db_username u ≠ username.
Proof.
  unfold get_user_by_username. rewrite fmap_None, list_find_None, Forall_forall.
  done.
Qed.

Lemma get_user_by_username_Some self username u :
  get_user_by_username self username = Some u →
  u ∈ _users self ∧ db_username u = username.
Proof.
  unfold get_user_by_username. intros Hf.
  apply fmap_Some in Hf as ([i x] & Hf & ->).
  apply list_find_Some in Hf as (Hi & HP & _). simpl.
  split; [by eapply list_elem_of_lookup_2 | done].
Qed.

Lemma get_user_by_email_None self email :
  get_user_by_email self email = None ↔
  ∀ u, u ∈ _users self → db_email u ≠ Some email.
Proof.
  unfold get_user_by_email. rewrite fmap_None, list_find_None, Forall_forall.
  done.
Qed.

Lemma get_user_by_email_Some self email u :
  get_user_by_email self email = Some u →
  u ∈ _users self ∧ db_email u = Some email.
Proof.
  unfold get_user_by_email. intros Hf.
  apply fmap_Some in Hf as ([i x] & Hf & ->).
  apply list_find_Some in Hf as (Hi & HP & _). simpl.
  split; [by eapply list_elem_of_lookup_2 | done].
Qed.

(** ** What [create_user] does *)

Section CreateUser.
Context `{CredentialHasher}.

Lemma create_user_duplicate_username now salt uc self existing :
  get_user_by_username self (uc_username uc) = Some existing →
  create_user now salt uc self =
    (self, Raise (HTTPException 400 "Username already registered")).
Proof. intros Hu. unfold create_user. by rewrite Hu. Qed.

Lemma create_user_duplicate_email now salt uc self existing :
  get_user_by_username self (uc_username uc) = None →
  get_user_by_email self (uc_email uc) = Some existing →
  create_user now salt uc self =
    (self, Raise (HTTPException 400 "Email already registered")).
Proof. intros Hu He. unfold create_user. by rewrite Hu, He. Qed.

Lemma create_user_fresh now salt uc self :
  get_user_by_username self (uc_username uc) = None →
  get_user_by_email self (uc_email uc) = None →
  create_user now salt uc self =
    (mkUserService
       (_users self ++
        [mkUserInDB (_next_id self) (uc_username uc) (Some (uc_email uc))
           (uc_full_name uc) (Some (uc_role uc)) (Some (uc_is_active uc))
           now None (get_password_hash salt (uc_password uc))])
       (_next_id self + 1),
     Ok (mkUser (_next_id self) (uc_username uc) (uc_email uc)
           (uc_full_name uc) (uc_role uc) (uc_is_active uc) now None)).
Proof.
  intros Hu He. unfold create_user. rewrite Hu, He.
  f_equal. by erewrite without_password_ok.
Qed.

(** A raising [create_user] has not touched the store. *)
Lemma create_user_raise_unchanged now salt uc self e :
  (create_user now salt uc self).2 = Raise e →
  (create_user now salt uc self).1 = self.
Proof.
  destruct (get_user_by_username self (uc_username uc)) as [u|] eqn:Hu.
  { by erewrite create_user_duplicate_username. }
  destruct (get_user_by_email self (uc_email uc)) as [u|] eqn:He.
  { by erewrite create_user_duplicate_email. }
  by rewrite create_user_fresh.
Qed.

Lemma UserService_init_eq t1 t2 r1 r2 :
  UserService_init t1 t2 r1 r2 =
    Ok (mkUserService
          [mkUserInDB 1 "admin" (Some "admin@example.com") (Some "Administrator")
             (Some ADMIN) (Some true) t1 None (get_password_hash r1 "admin123");
           mkUserInDB 2 "john_doe" (Some "john@example.com") (Some "John Doe")
             (Some USER) (Some true) t2 None (get_password_hash r2 "user123")]
          3).
Proof. reflexivity. Qed.
End CreateUser.

(** ** Store invariants *)

Lemma StronglySorted_sublist {A} (R : relation A) (l1 l2 : list A) :
  l1 `sublist_of` l2 → StronglySorted R l2 → StronglySorted R l1.
Proof.
  induction 1 as [|x l1 l2 Hsub IH|x l1 l2 Hsub IH]; intros Hs.
  - constructor.
  - apply StronglySorted_cons in Hs as [Hx Hs].
    apply StronglySorted_cons. split; [|by apply IH].
    rewrite Forall_forall in Hx |- *. intros y Hy.
    apply Hx. by eapply elem_of_sublist.
  - apply StronglySorted_cons in Hs as [_ Hs]. by apply IH.
Qed.

Lemma Forall_sublist_of {A} (P : A → Prop) (l1 l2 : list A) :
  l1 `sublist_of` l2 → Forall P l2 → Forall P l1.
Proof.
  rewrite !Forall_forall. intros Hsub HP x Hx.
  apply HP. by eapply elem_of_sublist.
Qed.

(** [update_user] keeps the id and the username of every slot. *)
Lemma update_user_ids now user_id upd self :
  db_id <$> _users (update_user now user_id upd self).1 = db_id <$> _users self.
Proof.
  unfold update_user.
  destruct (list_find _ _) as [[i user]|] eqn:Hf; [|done]. simpl.
  apply list_find_Some in Hf as (Hi & _ & _).
  rewrite list_fmap_insert. apply list_insert_id.
  by rewrite list_lookup_fmap, Hi.
Qed.

Lemma update_user_usernames now user_id upd self :
  db_username <$> _users (update_user now user_id upd self).1 =
  db_username <$> _users self.
Proof.
  unfold update_user.
  destruct (list_find _ _) as [[i user]|] eqn:Hf; [|done]. simpl.
  apply list_find_Some in Hf as (Hi & _ & _).
  rewrite list_fmap_insert. apply list_insert_id.
  by rewrite list_lookup_fmap, Hi.
Qed.

Lemma update_user_next_id now user_id upd self :
  _next_id (update_user now user_id upd self).1 = _next_id self.
Proof. unfold update_user. by destruct (list_find _ _) as [[i user]|]. Qed.

Lemma delete_user_sublist user_id self :
  _users (delete_user user_id self).1 `sublist_of` _users self.
Proof.
  unfold delete_user. destruct (list_find _ _) as [[i user]|]; simpl; [|done].
  apply sublist_delete.
Qed.

Lemma delete_user_next_id user_id self :
  _next_id (delete_user user_id self).1 = _next_id self.
Proof. unfold delete_user. by destruct (list_find _ _) as [[i user]|]. Qed.

Lemma delete_user_unique_emails user_id self :
  unique_emails self → unique_emails (delete_user user_id self).1.
Proof.
  intros Hn. eapply sublist_NoDup; [exact Hn|].
  apply fmap_sublist, delete_user_sublist.
Qed.

Section Invariants.
Context `{CredentialHasher}.

Lemma create_user_cases now salt uc self :
  (create_user now salt uc self).1 = self ∨
  (get_user_by_username self (uc_username uc) = None ∧
   get_user_by_email self (uc_email uc) = None ∧
   ∃ acct,
     (create_user now salt uc self).1 =
       mkUserService (_users self ++ [acct]) (_next_id self + 1) ∧
     db_id acct = _next_id self ∧
     db_username acct = uc_username uc ∧
     db_email acct = Some (uc_email uc)).
Proof.
  destruct (get_user_by_username self (uc_username uc)) as [u|] eqn:Hu.
  { left. by erewrite create_user_duplicate_username. }
  destruct (get_user_by_email self (uc_email uc)) as [u|] eqn:He.
  { left. by erewrite create_user_duplicate_email. }
  right. rewrite create_user_fresh by done.
  repeat split. by eexists.
Qed.

Lemma create_user_unique_usernames now salt uc self :
  unique_usernames self → unique_usernames (create_user now salt uc self).1.
Proof.
  intros Hn.
  destruct (create_user_cases now salt uc self)
    as [-> | (Hu & _ & acct & -> & _ & Hname & _)]; [done|].
  unfold unique_usernames in *. simpl. rewrite fmap_app. apply NoDup_app.
  split; [done|]. split; [|apply NoDup_singleton].
  intros n Hin Hin'. apply list_elem_of_singleton in Hin'. subst n.
  apply list_elem_of_fmap in Hin as (u & Heq & Hu').
  rewrite get_user_by_username_None in Hu. apply (Hu u Hu'). congruence.
Qed.

Lemma create_user_unique_emails now salt uc self :
  unique_emails self → unique_emails (create_user now salt uc self).1.
Proof.
  intros Hn.
  destruct (create_user_cases now salt uc self)
    as [-> | (_ & He & acct & -> & _ & _ & Hmail)]; [done|].
  unfold unique_emails in *. simpl. rewrite fmap_app. apply NoDup_app.
  split; [done|]. split; [|apply NoDup_singleton].
  intros n Hin Hin'. apply list_elem_of_singleton in Hin'. subst n.
  apply list_elem_of_fmap in Hin as (u & Heq & Hu').
  rewrite get_user_by_email_None in He. apply (He u Hu'). congruence.
Qed.

Lemma create_user_ids_increasing now salt uc self :
  ids_increasing self → ids_increasing (create_user now salt uc self).1.
Proof.
  intros (Hs & Hb & Hn).
  destruct (create_user_cases now salt uc self)
    as [-> | (_ & _ & acct & -> & Hid & _ & _)]; [done|].
  unfold ids_increasing. simpl. rewrite fmap_app. simpl. rewrite Hid.
  split; [|split; [|lia]].
  - apply StronglySorted_app_2; [|done|repeat constructor].
    intros x1 x2 Hx1 Hx2. apply list_elem_of_singleton in Hx2. subst x2.
    rewrite Forall_forall in Hb. apply Hb in Hx1. lia.
  - apply Forall_app. split.
    + eapply Forall_impl; [exact Hb|]. simpl. intros; lia.
    + apply Forall_singleton. lia.
Qed.

Lemma UserService_init_invariants t1 t2 r1 r2 self :
  UserService_init t1 t2 r1 r2 = Ok self →
  unique_usernames self ∧ unique_emails self ∧ ids_increasing self.
Proof.
  rewrite UserService_init_eq. intros [= <-].
  unfold unique_usernames, unique_emails, ids_increasing. simpl.
  split; [|split; [|split; [|split]]].
  - apply NoDup_cons. split; [|apply NoDup_singleton].
    rewrite list_elem_of_singleton. discriminate.
  - apply NoDup_cons. split; [|apply NoDup_singleton].
    rewrite list_elem_of_singleton. discriminate.
  - repeat constructor; lia.
  - repeat constructor; lia.
  - lia.
Qed.

(** Usernames stay unique and ids stay increasing whatever is run. *)
Lemma reachable_invariants self :
  reachable self → unique_usernames self ∧ ids_increasing self.
Proof.
  induction 1 as [t1 t2 r1 r2 self Hinit | o self Hr [IHu IHi]].
  { apply UserService_init_invariants in Hinit. tauto. }
  destruct o as [now salt uc | now user_id upd | user_id]; simpl.
  - split; [by apply create_user_unique_usernames
           | by apply create_user_ids_increasing].
  - unfold unique_usernames, ids_increasing.
    by rewrite update_user_usernames, update_user_ids, update_user_next_id.
  - pose proof (delete_user_sublist user_id self) as Hsub.
    destruct IHi as (Hs & Hb & Hn).
    unfold unique_usernames, ids_increasing.
    rewrite delete_user_next_id. repeat split; [| | |done].
    + eapply sublist_NoDup; [exact IHu|]. by apply fmap_sublist.
    + eapply StronglySorted_sublist; [|exact Hs]. by apply fmap_sublist.
    + eapply Forall_sublist_of; [|exact Hb]. by apply fmap_sublist.
Qed.

Lemma ids_increasing_NoDup self :
  ids_increasing self → NoDup (db_id <$> _users self).
Proof.
  intros (Hs & _ & _). induction Hs as [|x l Hs IH Hx]; constructor; [|done].
  intros Hin. rewrite Forall_forall in Hx. apply Hx in Hin. lia.
Qed.
End Invariants.

(** ** Registration and authentication *)

Lemma validate_password_ok (v : string) :
  (6 ≤ String.length v)%nat → validate_password v = Ok v.
Proof.
  intros Hlen. unfold validate_password.
  destruct (Z.ltb_spec (Z.of_nat (String.length v)) 6); [lia | done].
Qed.

Section Authentication.
Context `{CredentialHasher}.

Lemma get_user_by_username_appended users next next' acct :
  (∀ u, u ∈ users → db_username u ≠ db_username acct) →
  get_user_by_username (mkUserService (users ++ [acct]) next') (db_username acct)
    = Some acct ∧
  get_user_by_username (mkUserService users next) (db_username acct) = None.
Proof.
  intros Hfresh.
  assert (list_find (λ user, db_username user = db_username acct) users = None) as Hn.
  { apply list_find_None, Forall_forall. exact Hfresh. }
  unfold get_user_by_username. simpl. rewrite Hn. split; [|done].
  rewrite list_find_app_r by done. simpl.
  by rewrite decide_True.
Qed.

(** C1. For every username, email and password of length at least 6 such
    that no stored account has that username or that email, registration
    ([register_user], hence [create_user]) succeeds, and authenticating
    afterwards with the same username and password succeeds and returns
    the account with that username, the one the registration reported. *)
Theorem register_then_authenticate
    (now : datetime) (salt username email password : string)
    (full_name : option string) (role : UserRole) (is_active : bool)
    (self : UserService) :
  hasher_sound →
  (6 ≤ String.length password)%nat →
  (∀ u, u ∈ _users self → db_username u ≠ username) →
  (∀ u, u ∈ _users self → db_email u ≠ Some email) →
  ∃ self' v account,
    auth.register_user now salt username email password full_name role
      is_active self = (self', Ok v) ∧
    create_user now salt
      (mkUserCreate username email full_name role is_active password) self
      = (self', Ok v) ∧
    User_username v = username ∧
    authenticate_user self' username password = Some account ∧
    db_username account = username ∧
    view_of account v.
Proof.
  intros Hsound Hlen Hname Hmail.
  apply get_user_by_username_None in Hname as Hname'.
  apply get_user_by_email_None in Hmail.
  unfold auth.register_user, UserCreate_new.
  rewrite validate_password_ok by done. simpl.
  rewrite create_user_fresh by done. simpl.
  do 3 eexists. split; [reflexivity|]. split; [reflexivity|].
  split; [reflexivity|].
  unfold authenticate_user.
  match goal with
  | |- context [_users self ++ [?a]] =>
      destruct (get_user_by_username_appended (_users self) (_next_id self)
                  (_next_id self + 1) a) as [Hfound _]; [exact Hname|]
  end.
  simpl in Hfound. rewrite Hfound. simpl. rewrite Hsound. simpl.
  split; [reflexivity|]. split; [reflexivity|]. repeat split.
Qed.

(** C2 (as the code has it). [authenticate_user] has one failure outcome:
    it returns [None] for every username that is not in the store,
    whatever the password, and it returns the same [None] for every
    registered username whose password does not verify against the stored
    hash; the login endpoint answers both with the same 401. *)
Theorem authenticate_user_single_failure (self : UserService)
    (username password : string) (now : datetime) :
  ((∀ u, u ∈ _users self → db_username u ≠ username) →
     authenticate_user self username password = None ∧
     auth.login_for_access_token self username password now =
       Raise (HTTPException 401 "Incorrect username or password")) ∧
  (∀ user,
     get_user_by_username self username = Some user →
     verify_password password (db_hashed_password user) = false →
     authenticate_user self username password = None ∧
     auth.login_for_access_token self username password now =
       Raise (HTTPException 401 "Incorrect username or password")).
Proof.
  split.
  - intros Hname. apply get_user_by_username_None in Hname.
    unfold auth.login_for_access_token, authenticate_user.
    by rewrite Hname.
  - intros user Huser Hbad.
    unfold auth.login_for_access_token, authenticate_user.
    by rewrite Huser, Hbad.
Qed.

(** C6. [create_user] checks the username before the email: when the
    username collides the failure is "Username already registered",
    whether or not the email collides as well; when only the email
    collides it is "Email already registered"; and a registration that
    fails, for either reason or for a short password, leaves the store
    as it was. *)
Theorem create_user_duplicate_order (now : datetime) (salt : string)
    (uc : UserCreate) (self : UserService) :
  ((∃ u, u ∈ _users self ∧ db_username u = uc_username uc) →
     create_user now salt uc self =
       (self, Raise (HTTPException 400 "Username already registered"))) ∧
  ((∀ u, u ∈ _users self → db_username u ≠ uc_username uc) →
   (∃ u, u ∈ _users self ∧ db_email u = Some (uc_email uc)) →
     create_user now salt uc self =
       (self, Raise (HTTPException 400 "Email already registered"))) ∧
  (∀ e, (create_user now salt uc self).2 = Raise e →
        (create_user now salt uc self).1 = self) ∧
  (∀ e,
     (auth.register_user now salt (uc_username uc) (uc_email uc)
        (uc_password uc) (uc_full_name uc) (uc_role uc) (uc_is_active uc)
        self).2 = Raise e →
     (auth.register_user now salt (uc_username uc) (uc_email uc)
        (uc_password uc) (uc_full_name uc) (uc_role uc) (uc_is_active uc)
        self).1 = self).
Proof.
  repeat split.
  - intros (u & Hin & Hu).
    destruct (list_find_elem_of (λ user, db_username user = uc_username uc)
                (_users self) u Hin Hu) as [[i x] Hf].
    eapply create_user_duplicate_username.
    unfold get_user_by_username. by rewrite Hf.
  - intros Hname (u & Hin & Hu).
    apply get_user_by_username_None in Hname.
    destruct (list_find_elem_of (λ user, db_email user = Some (uc_email uc))
                (_users self) u Hin Hu) as [[i x] Hf].
    eapply create_user_duplicate_email; [done|].
    unfold get_user_by_email. by rewrite Hf.
  - apply create_user_raise_unchanged.
  - intros e. unfold auth.register_user.
    destruct (UserCreate_new _ _ _ _ _ _) as [uc'|e']; [|done].
    apply create_user_raise_unchanged.
Qed.
End Authentication.

(** Witness of C1: "alice" registers on the fresh service and logs in. *)
Lemma register_then_authenticate_witness :
  ∃ self' v account,
    @auth.register_user reference_hasher 100 "salt-3" "alice" "alice@x.com"
      "secret1" None USER true fresh_service = (self', Ok v) ∧
    @create_user reference_hasher 100 "salt-3"
      (mkUserCreate "alice" "alice@x.com" None USER true "secret1") fresh_service
      = (self', Ok v) ∧
    User_username v = "alice" ∧
    @authenticate_user reference_hasher self' "alice" "secret1" = Some account ∧
    db_username account = "alice" ∧
    view_of account v.
Proof.
  apply (@register_then_authenticate reference_hasher).
  - exact reference_hasher_sound.
  - vm_compute. lia.
  - apply get_user_by_username_None. reflexivity.
  - apply get_user_by_email_None. reflexivity.
Defined.

(** C2 as stated fails: on the fresh service an unknown username and a
    wrong password for "admin" produce one and the same outcome. *)
Lemma authenticate_user_failures_not_distinct :
  ¬ (@authenticate_user reference_hasher fresh_service "nobody" "admin123" ≠
     @authenticate_user reference_hasher fresh_service "admin" "wrong-password").
Proof. intros Hne. apply Hne. reflexivity. Qed.

(** Witness of C2 (as the code has it): both failures on the fresh service. *)
Lemma authenticate_user_single_failure_witness :
  (@authenticate_user reference_hasher fresh_service "nobody" "admin123" = None ∧
   @auth.login_for_access_token reference_hasher fresh_service "nobody" "admin123" 7 =
     Raise (HTTPException 401 "Incorrect username or password")) ∧
  (@authenticate_user reference_hasher fresh_service "admin" "wrong-password" = None ∧
   @auth.login_for_access_token reference_hasher fresh_service "admin" "wrong-password" 7 =
     Raise (HTTPException 401 "Incorrect username or password")).
Proof.
  split.
  - apply (proj1 (@authenticate_user_single_failure reference_hasher
                    fresh_service "nobody" "admin123" 7)).
    apply get_user_by_username_None. reflexivity.
  - eapply (proj2 (@authenticate_user_single_failure reference_hasher
                     fresh_service "admin" "wrong-password" 7)).
    + reflexivity.
    + reflexivity.
Defined.

(** Witness of C6: on the fresh service, "admin" with john's address is
    refused for the username, "alice" with john's address for the email,
    and "bob" with a five-letter password by the validator; the store is
    the same after each. *)
Lemma create_user_duplicate_order_witness :
  @create_user reference_hasher 5 "salt-3"
    (mkUserCreate "admin" "john@example.com" None USER true "secret1")
    fresh_service
    = (fresh_service, Raise (HTTPException 400 "Username already registered")) ∧
  @create_user reference_hasher 5 "salt-3"
    (mkUserCreate "alice" "john@example.com" None USER true "secret1")
    fresh_service
    = (fresh_service, Raise (HTTPException 400 "Email already registered")) ∧
  (@create_user reference_hasher 5 "salt-3"
     (mkUserCreate "alice" "john@example.com" None USER true "secret1")
     fresh_service).1 = fresh_service ∧
  (@auth.register_user reference_hasher 5 "salt-3" "bob" "bob@x.com" "12345"
     None USER true fresh_service).1 = fresh_service.
Proof.
  split; [|split; [|split]].
  - apply (proj1 (@create_user_duplicate_order reference_hasher 5 "salt-3"
                    (mkUserCreate "admin" "john@example.com" None USER true "secret1")
                    fresh_service)).
    eexists. split; [eapply (list_elem_of_lookup_2 _ 0%nat); reflexivity|].
    reflexivity.
  - apply (proj1 (proj2 (@create_user_duplicate_order reference_hasher 5 "salt-3"
                    (mkUserCreate "alice" "john@example.com" None USER true "secret1")
                    fresh_service))).
    + apply get_user_by_username_None. reflexivity.
    + eexists. split; [eapply (list_elem_of_lookup_2 _ 1%nat); reflexivity|].
      reflexivity.
  - apply (proj1 (proj2 (proj2 (@create_user_duplicate_order reference_hasher 5
                    "salt-3"
                    (mkUserCreate "alice" "john@example.com" None USER true "secret1")
                    fresh_service)))
             (HTTPException 400 "Email already registered")).
    reflexivity.
  - apply (proj2 (proj2 (proj2 (@create_user_duplicate_order reference_hasher 5
                    "salt-3"
                    (mkUserCreate "bob" "bob@x.com" None USER true "12345")
                    fresh_service)))
             (ValidationError "password")).
    reflexivity.
Defined.

(** ** The seeded store and the id counter *)

Section Seeding.
Context `{CredentialHasher}.

Lemma create_user_ok_id now salt uc self self' v :
  create_user now salt uc self = (self', Ok v) → User_id v = _next_id self.
Proof.
  destruct (get_user_by_username self (uc_username uc)) as [u|] eqn:Hu.
  { by erewrite create_user_duplicate_username. }
  destruct (get_user_by_email self (uc_email uc)) as [u|] eqn:He.
  { by erewrite create_user_duplicate_email. }
  rewrite create_user_fresh by done. by intros [= _ <-].
Qed.

Lemma run_all_next_id ops self :
  Forall (λ o, is_create o = false) ops →
  _next_id (run_all ops self) = _next_id self.
Proof.
  intros Hops. revert self.
  induction Hops as [|o ops Ho _ IH]; intros self; [done|].
  unfold run_all in *. simpl. rewrite IH.
  destruct o as [now salt uc | now user_id upd | user_id]; simpl.
  - discriminate Ho.
  - apply update_user_next_id.
  - apply delete_user_next_id.
Qed.

(** C9. A freshly constructed service is not empty: it holds exactly two
    accounts, the active admin "admin" with id 1 and the active user
    "john_doe" with id 2, and its counter stands at 3; so a registration
    that collides with neither of them succeeds with id 3, and so does the
    first successful registration after any updates and deletions. *)
Theorem fresh_service_is_seeded (t1 t2 : datetime) (r1 r2 : string) :
  ∃ admin john,
    UserService_init t1 t2 r1 r2 = Ok (mkUserService [admin; john] 3) ∧
    (db_username admin = "admin" ∧ db_id admin = 1 ∧
     db_role admin = Some ADMIN ∧ db_is_active admin = Some true) ∧
    (db_username john = "john_doe" ∧ db_id john = 2 ∧
     db_role john = Some USER ∧ db_is_active john = Some true) ∧
    (∀ now salt uc,
       uc_username uc ≠ "admin" → uc_username uc ≠ "john_doe" →
       uc_email uc ≠ "admin@example.com" → uc_email uc ≠ "john@example.com" →
       ∃ self' v,
         create_user now salt uc (mkUserService [admin; john] 3) = (self', Ok v) ∧
         User_id v = 3) ∧
    (∀ ops now salt uc self' v,
       Forall (λ o, is_create o = false) ops →
       create_user now salt uc (run_all ops (mkUserService [admin; john] 3))
         = (self', Ok v) →
       User_id v = 3).
Proof.
  do 2 eexists. split; [apply UserService_init_eq|].
  split; [done|]. split; [done|]. split.
  - intros now salt uc Hn1 Hn2 He1 He2.
    do 2 eexists.
    rewrite create_user_fresh; [split; reflexivity| |].
    + apply get_user_by_username_None. simpl. intros u Hu.
      apply elem_of_cons in Hu as [->|Hu]; [simpl; congruence|].
      apply list_elem_of_singleton in Hu as ->. simpl. congruence.
    + apply get_user_by_email_None. simpl. intros u Hu.
      apply elem_of_cons in Hu as [->|Hu]; [simpl; congruence|].
      apply list_elem_of_singleton in Hu as ->. simpl. congruence.
  - intros ops now salt uc self' v Hops Hcreate.
    apply create_user_ok_id in Hcreate. by rewrite run_all_next_id in Hcreate.
Qed.

(** C3 does not hold of [update_user]: on the fresh service, setting the
    email of account 2 to the address of account 1 is accepted and stored,
    and the reached store has two accounts with one email. *)
Theorem update_user_duplicates_email (t1 t2 : datetime) (r1 r2 : string)
    (now : datetime) :
  ∃ self self' v,
    UserService_init t1 t2 r1 r2 = Ok self ∧
    unique_emails self ∧
    update_user now 2
      (mkUserUpdate (Given (Some "admin@example.com")) Unset Unset Unset) self
      = (self', Ok (Some v)) ∧
    User_email v = "admin@example.com" ∧
    reachable self' ∧
    db_email <$> _users self' =
      [Some "admin@example.com"; Some "admin@example.com"] ∧
    ¬ unique_emails self'.
Proof.
  eexists _, _, _. split; [apply UserService_init_eq|].
  split.
  { apply (UserService_init_invariants t1 t2 r1 r2), UserService_init_eq. }
  split; [vm_compute; reflexivity|].
  split; [reflexivity|]. split.
  - apply (reachable_run
             (Update now 2
                (mkUserUpdate (Given (Some "admin@example.com")) Unset Unset Unset))
             (mkUserService
                [mkUserInDB 1 "admin" (Some "admin@example.com")
                   (Some "Administrator") (Some ADMIN) (Some true) t1 None
                   (get_password_hash r1 "admin123");
                 mkUserInDB 2 "john_doe" (Some "john@example.com")
                   (Some "John Doe") (Some USER) (Some true) t2 None
                   (get_password_hash r2 "user123")] 3)).
    apply (reachable_init t1 t2 r1 r2), UserService_init_eq.
  - split; [reflexivity|]. unfold unique_emails. simpl.
    intros Hnd. apply NoDup_cons in Hnd as [Hnotin _].
    apply Hnotin, list_elem_of_here.
Qed.
End Seeding.

(** Witness of C9: "alice" is the first to register, on the fresh service
    and on the service after a role change and a deletion. *)
Lemma fresh_service_is_seeded_witness :
  ∃ admin john,
    @UserService_init reference_hasher 0 0 "salt-1" "salt-2"
      = Ok (mkUserService [admin; john] 3) ∧
    (∃ self' v,
       @create_user reference_hasher 9 "salt-3"
         (mkUserCreate "alice" "alice@x.com" None USER true "secret1")
         (mkUserService [admin; john] 3) = (self', Ok v) ∧
       User_id v = 3) ∧
    (∃ self' v,
       @create_user reference_hasher 9 "salt-3"
         (mkUserCreate "alice" "alice@x.com" None USER true "secret1")
         (@run_all reference_hasher
            [Update 4 2 (role_update MODERATOR); Delete 1]
            (mkUserService [admin; john] 3)) = (self', Ok v) ∧
       User_id v = 3).
Proof.
  destruct (@fresh_service_is_seeded reference_hasher 0 0 "salt-1" "salt-2")
    as (admin & john & Hinit & _ & _ & Hfirst & Hlater).
  exists admin, john. split; [exact Hinit|]. split.
  - apply (Hfirst 9 "salt-3"
             (mkUserCreate "alice" "alice@x.com" None USER true "secret1"));
      simpl; discriminate.
  - vm_compute in Hinit. injection Hinit as <- <-.
    eexists _, _. split; [vm_compute; reflexivity|].
    eapply (Hlater [Update 4 2 (role_update MODERATOR); Delete 1] 9 "salt-3"
              (mkUserCreate "alice" "alice@x.com" None USER true "secret1")).
    + repeat constructor.
    + vm_compute. reflexivity.
Defined.

(** ** The access guard *)

(** C5 (as the code has it). The guard checks activity before role, and
    the activity check raises status 400 with detail "Inactive user", not
    403: every inactive principal, admin or not, is turned away from the
    admin-gated operations with that 400 and the store untouched, while the
    role check, reached by active principals only, raises 403 "Not enough
    permissions". *)
Theorem inactive_principal_rejected_first `{CredentialHasher} (principal : User) :
  (User_is_active principal = false →
     auth.get_current_active_user principal =
       Raise (HTTPException 400 "Inactive user") ∧
     users.admin_principal principal =
       Raise (HTTPException 400 "Inactive user") ∧
     (∀ now salt uc self,
        users.create_user now salt uc principal self =
          (self, Raise (HTTPException 400 "Inactive user"))) ∧
     (∀ user_id self,
        users.delete_user user_id principal self =
          (self, Raise (HTTPException 400 "Inactive user")))) ∧
  (User_is_active principal = true → User_role principal ≠ ADMIN →
     users.admin_principal principal =
       Raise (HTTPException 403 "Not enough permissions")) ∧
  (User_is_active principal = true → User_role principal = ADMIN →
     users.admin_principal principal = Ok principal).
Proof.
  unfold users.create_user, users.delete_user, users.admin_principal,
    auth.get_current_active_user, users.get_admin_user.
  split; [|split].
  - intros ->. simpl. repeat split.
  - intros -> Hrole. simpl. by rewrite decide_True.
  - intros -> Hrole. simpl. rewrite decide_False; [done|]. by intros [].
Qed.

(** C5 as stated fails: an inactive admin is not answered with 403. *)
Lemma inactive_admin_not_forbidden :
  ¬ (status_of (users.admin_principal
                  (mkUser 1 "admin" "admin@example.com" (Some "Administrator")
                     ADMIN false 0 None))
     = Some HTTP_403_FORBIDDEN).
Proof. vm_compute. discriminate. Qed.

(** Witness of C5 (as the code has it): an inactive user, an active user
    and an active admin at the admin gate. *)
Lemma inactive_principal_rejected_first_witness :
  users.admin_principal (mkUser 2 "john_doe" "john@example.com" None USER false 0 None)
    = Raise (HTTPException 400 "Inactive user") ∧
  users.admin_principal (mkUser 2 "john_doe" "john@example.com" None USER true 0 None)
    = Raise (HTTPException 403 "Not enough permissions") ∧
  users.admin_principal (mkUser 1 "admin" "admin@example.com" None ADMIN true 0 None)
    = Ok (mkUser 1 "admin" "admin@example.com" None ADMIN true 0 None).
Proof.
  split; [|split].
  - apply (proj1 (@inactive_principal_rejected_first reference_hasher
                    (mkUser 2 "john_doe" "john@example.com" None USER false 0 None))).
    reflexivity.
  - apply (proj1 (proj2 (@inactive_principal_rejected_first reference_hasher
                    (mkUser 2 "john_doe" "john@example.com" None USER true 0 None)))).
    + reflexivity.
    + simpl. discriminate.
  - apply (proj2 (proj2 (@inactive_principal_rejected_first reference_hasher
                    (mkUser 1 "admin" "admin@example.com" None ADMIN true 0 None)))).
    + reflexivity.
    + reflexivity.
Defined.

(** ** The token codec *)

(** C7. A token issued for [subject] at [now] with lifetime [ttl]
    verifies to [subject] at every instant [now'] with
    [now <= now' < now + ttl], and fails with [Expired] at every instant
    [now' >= now + ttl]. *)
Theorem token_round_trip (subject : string) (now ttl now' : Z) :
  (now ≤ now' < now + ttl →
     TokenCodec.verify (TokenCodec.issue subject now ttl) now' = inr subject) ∧
  (now + ttl ≤ now' →
     TokenCodec.verify (TokenCodec.issue subject now ttl) now'
       = inl TokenCodec.Expired).
Proof.
  unfold TokenCodec.verify, TokenCodec.issue. simpl.
  rewrite decide_True by done. split; intros Hwhen.
  - destruct (Z.leb_spec (now + ttl) now'); [lia | done].
  - destruct (Z.leb_spec (now + ttl) now'); [done | lia].
Qed.

(** Witness of C7: the last valid instant of a token of thirty minutes,
    and the instant of its expiry. *)
Lemma token_round_trip_witness :
  TokenCodec.verify (TokenCodec.issue "alice" 1000 1800) 2799 = inr "alice" ∧
  TokenCodec.verify (TokenCodec.issue "alice" 1000 1800) 2800
    = inl TokenCodec.Expired.
Proof.
  split.
  - apply (proj1 (token_round_trip "alice" 1000 1800 2799)). lia.
  - apply (proj2 (token_round_trip "alice" 1000 1800 2800)). lia.
Defined.

(** The sentence of section 4.2 holds of [verify] as well: a token with a
    matching signature that is presented after [expiresAt] fails with
    [Expired]. *)
Lemma verify_after_expiry (payload : TokenCodec.claims) (now : Z) :
  TokenCodec.expires_at payload < now →
  TokenCodec.verify
    (TokenCodec.Signed payload (TokenCodec.sign settings.secret_key payload)) now
    = inl TokenCodec.Expired.
Proof.
  intros Hlate. unfold TokenCodec.verify. rewrite decide_True by done.
  destruct (Z.leb_spec (TokenCodec.expires_at payload) now); [done | lia].
Qed.

(** A successful login issues a token for the stored username that lives
    thirty minutes. *)
Lemma login_issues_token `{CredentialHasher} self username password now user :
  authenticate_user self username password = Some user →
  auth.login_for_access_token self username password now
    = Ok (TokenCodec.issue (db_username user) now 1800, "bearer").
Proof. intros Hauth. unfold auth.login_for_access_token. by rewrite Hauth. Qed.

(** A payload other than the signed one does not verify. *)
Lemma tampered_token_malformed (payload payload' : TokenCodec.claims) (now : Z) :
  payload' ≠ payload →
  TokenCodec.verify
    (TokenCodec.Signed payload' (TokenCodec.sign settings.secret_key payload)) now
    = inl TokenCodec.Malformed.
Proof.
  intros Hne. unfold TokenCodec.verify, TokenCodec.sign.
  rewrite decide_False; [done|]. intros [= Heq]. by apply Hne.
Qed.

(** A token whose subject has been deleted resolves to the 401. *)
Example orphaned_token_unauthorized :
  auth.get_current_user (delete_user 2 fresh_service).1
    (TokenCodec.issue "john_doe" 1000 1800) 1001
  = Raise auth.credentials_exception.
Proof. reflexivity. Qed.

(** ** Pagination *)

Lemma py_slice_window {A} (l : list A) (skip limit : Z) :
  0 ≤ skip → 0 ≤ limit →
  py_slice l skip (skip + limit) = take (Z.to_nat limit) (drop (Z.to_nat skip) l).
Proof.
  intros Hskip Hlimit. unfold py_slice, slice_bound.
  destruct (Z.ltb_spec skip 0); [lia|].
  destruct (Z.ltb_spec (skip + limit) 0); [lia|].
  destruct (Z.le_gt_cases (Z.of_nat (length l)) skip) as [Hout|Hin].
  - rewrite !Z.min_r by lia. rewrite Z.sub_diag. simpl.
    rewrite (drop_ge l (Z.to_nat skip)) by lia. by rewrite take_nil.
  - rewrite (Z.min_l skip) by lia.
    destruct (Z.le_gt_cases (skip + limit) (Z.of_nat (length l))) as [Hfit|Hcut].
    + rewrite Z.min_l by lia. do 2 f_equal. lia.
    + rewrite Z.min_r by lia.
      rewrite !take_ge; [done | |]; rewrite length_drop; lia.
Qed.

Lemma comprehension_Forall2 {A B} (f : A → result B) (l : list A) (ys : list B) :
  comprehension f l = Ok ys ↔ Forall2 (λ x y, f x = Ok y) l ys.
Proof.
  revert ys. induction l as [|x l IH]; intros ys; simpl.
  - split; [intros [= <-]; constructor | by inversion 1].
  - destruct (f x) as [y|e] eqn:Hx; simpl.
    + destruct (comprehension f l) as [ys'|e] eqn:Hl; simpl.
      * split.
        -- intros [= <-]. constructor; [done | by apply IH].
        -- inversion 1 as [|? y' ? ys'' Hy Hys]; subst.
           apply IH in Hys. congruence.
      * split; [done|]. inversion 1 as [|? y' ? ys'' Hy Hys]; subst.
        apply IH in Hys. congruence.
    + split; [done|]. inversion 1; congruence.
Qed.





(** [update_user] stores a supplied null as it is: the record is then
    not [well_typed], the call itself raises after the write, and so does
    every later page that contains the record. *)
Example update_user_stores_null :
  let upd := mkUserUpdate (Given None) Unset Unset Unset in
  (update_user 9 2 upd fresh_service).2 = Raise (ValidationError "email") ∧
  (db_email <$> _users (update_user 9 2 upd fresh_service).1
     = [Some "admin@example.com"; None]) ∧
  get_users (update_user 9 2 upd fresh_service).1 0 100
    = Raise (ValidationError "email") ∧
  get_users (update_user 9 2 upd fresh_service).1 0 1
    = get_users fresh_service 0 1.
Proof. vm_compute. repeat split. Qed.

(** ** Response views *)

Lemma User_dict_no_hash (v : User) : "hashed_password" ∉ dom (User_dict v).
Proof. apply not_elem_of_dom. destruct v. reflexivity. Qed.

Lemma UserInDB_dict_has_hash (u : UserInDB) :
  "hashed_password" ∈ dom (UserInDB_dict u).
Proof. apply elem_of_dom. exists (VStr (db_hashed_password u)). reflexivity. Qed.

Lemma excluded_dict_no_hash (u : UserInDB) :
  "hashed_password" ∉ dom (dict_exclude {["hashed_password"]} (UserInDB_dict u)).
Proof.
  apply not_elem_of_dom. unfold dict_exclude. apply map_lookup_filter_None.
  right. intros x _. simpl. set_solver.
Qed.

Lemma public_view_in_intro self u v :
  u ∈ _users self → without_password u = Ok v → public_view_in self v.
Proof.
  intros Hin Hv. split; [apply User_dict_no_hash|].
  exists u. split; [done|]. split; [by apply without_password_view|].
  apply UserInDB_dict_has_hash.
Qed.

Lemma py_slice_sublist {A} (l : list A) (start stop : Z) :
  py_slice l start stop `sublist_of` l.
Proof. unfold py_slice. etrans; [apply sublist_take | apply sublist_drop]. Qed.

(** C4. Every response-facing view of an account omits the password hash:
    whatever the store and the arguments, what [create_user],
    [get_user_by_id], [get_users] and [update_user] return is a view of a
    stored account whose serialisation has no [hashed_password] field,
    although the stored record has one. *)
Theorem responses_omit_hashed_password `{CredentialHasher} :
  (∀ now salt uc self self' v,
     create_user now salt uc self = (self', Ok v) → public_view_in self' v) ∧
  (∀ self user_id v,
     get_user_by_id self user_id = Ok (Some v) → public_view_in self v) ∧
  (∀ self skip limit views,
     get_users self skip limit = Ok views → Forall (public_view_in self) views) ∧
  (∀ now user_id upd self self' v,
     update_user now user_id upd self = (self', Ok (Some v)) →
     public_view_in self' v).
Proof.
  split; [|split; [|split]].
  - intros now salt uc self self' v.
    destruct (get_user_by_username self (uc_username uc)) as [u|] eqn:Hu.
    { by erewrite create_user_duplicate_username. }
    destruct (get_user_by_email self (uc_email uc)) as [u|] eqn:He.
    { by erewrite create_user_duplicate_email. }
    rewrite create_user_fresh by done. intros [= <- <-].
    eapply public_view_in_intro.
    + simpl. apply elem_of_app. right. apply list_elem_of_here.
    + by erewrite without_password_ok.
  - intros self user_id v. unfold get_user_by_id.
    destruct (list_find _ _) as [[i u]|] eqn:Hf; [|done].
    apply list_find_Some in Hf as (Hi & _ & _).
    destruct (without_password u) as [v'|e] eqn:Hv; [|done].
    simpl. intros [= <-].
    eapply public_view_in_intro; [|exact Hv]. by eapply list_elem_of_lookup_2.
  - intros self skip limit views Hget. unfold get_users in Hget.
    apply comprehension_Forall2 in Hget.
    apply Forall_lookup. intros i v Hi.
    destruct (Forall2_lookup_r _ _ _ _ _ Hget Hi) as (u & Hu & Hv).
    eapply public_view_in_intro; [|exact Hv].
    eapply elem_of_sublist; [|apply py_slice_sublist].
    by eapply list_elem_of_lookup_2.
  - intros now user_id upd self self' v. unfold update_user.
    destruct (list_find _ _) as [[i u]|] eqn:Hf; [|done].
    apply list_find_Some in Hf as (Hi & _ & _).
    destruct (without_password (copy_update u upd now)) as [v'|e] eqn:Hv; [|done].
    simpl. intros [= <- <-].
    eapply public_view_in_intro; [|exact Hv]. simpl.
    apply list_elem_of_insert. by eapply lookup_lt_Some.
Qed.

(** Witness of C4: the four operations on the fresh service. *)
Lemma responses_omit_hashed_password_witness :
  (∃ self' v,
     @create_user reference_hasher 9 "salt-3"
       (mkUserCreate "alice" "alice@x.com" None USER true "secret1")
       fresh_service = (self', Ok v) ∧ public_view_in self' v) ∧
  (∃ v, get_user_by_id fresh_service 1 = Ok (Some v) ∧
        public_view_in fresh_service v) ∧
  (∃ views, get_users fresh_service 0 100 = Ok views ∧ length views = 2%nat ∧
            Forall (public_view_in fresh_service) views) ∧
  (∃ self' v,
     update_user 9 2 (role_update MODERATOR) fresh_service = (self', Ok (Some v)) ∧
     public_view_in self' v).
Proof.
  destruct (@responses_omit_hashed_password reference_hasher)
    as (Hcreate & Hget & Hlist & Hupdate).
  split; [|split; [|split]].
  - eexists _, _. split; [vm_compute; reflexivity|].
    eapply (Hcreate 9 "salt-3"
              (mkUserCreate "alice" "alice@x.com" None USER true "secret1")
              fresh_service).
    vm_compute. reflexivity.
  - eexists. split; [vm_compute; reflexivity|].
    apply (Hget fresh_service 1). vm_compute. reflexivity.
  - eexists. split; [vm_compute; reflexivity|]. split; [reflexivity|].
    apply (Hlist fresh_service 0 100). vm_compute. reflexivity.
  - eexists _, _. split; [vm_compute; reflexivity|].
    eapply (Hupdate 9 2 (role_update MODERATOR) fresh_service).
    vm_compute. reflexivity.
Defined.

(** ** Updating one's own role *)

Lemma list_find_insert_same {A} (P : A → Prop) `{∀ x, Decision (P x)}
    (l : list A) (i : nat) (x y : A) :
  list_find P l = Some (i, x) → P y → list_find P (<[i:=y]> l) = Some (i, y).
Proof.
  intros Hf Hy. apply list_find_Some in Hf as (Hi & _ & Hfirst).
  apply list_find_Some. split; [|split; [done|]].
  - apply list_lookup_insert_eq. by eapply lookup_lt_Some.
  - intros j z Hj Hlt. rewrite list_lookup_insert_ne in Hj by lia.
    by eapply Hfirst.
Qed.

(** In a store with distinct ids, the account a username resolves to is
    the one its id resolves to. *)
Lemma find_by_id_of_found_by_username self username account :
  ids_increasing self →
  get_user_by_username self username = Some account →
  ∃ i, list_find (λ user, db_username user = username) (_users self)
         = Some (i, account) ∧
       list_find (λ user, db_id user = db_id account) (_users self)
         = Some (i, account).
Proof.
  intros Hids Hname. apply ids_increasing_NoDup in Hids.
  unfold get_user_by_username in Hname.
  apply fmap_Some in Hname as ([i x] & Hf & ->). simpl in *.
  exists i. split; [done|].
  apply list_find_Some in Hf as (Hi & _ & _).
  apply list_find_Some. split; [done|]. split; [done|].
  intros j y Hj Hlt Heq.
  assert (i = j) as ->; [|lia].
  eapply NoDup_lookup; [exact Hids| |].
  - by rewrite list_lookup_fmap, Hi.
  - by rewrite list_lookup_fmap, Hj, <- Heq.
Qed.

(** C10. The update endpoint lets an active principal change the role of
    its own account: in every reachable store, for every principal that
    the store resolves for a username, that is active and whose role is
    user or moderator, the PUT on the principal's own id with [role = admin]
    succeeds, and afterwards the stored account of that username has role
    admin, as has the view [get_user_by_id] gives of it. *)
Theorem self_promotion_to_admin `{CredentialHasher} (now : datetime)
    (self : UserService) (username : string) (account : UserInDB)
    (principal : User) :
  reachable self →
  get_user_by_username self username = Some account →
  without_password account = Ok principal →
  User_is_active principal = true →
  User_role principal = USER ∨ User_role principal = MODERATOR →
  ∃ self' v account',
    users.update_user now (User_id principal) (role_update ADMIN) principal self
      = (self', Ok v) ∧
    User_id v = User_id principal ∧
    User_username v = username ∧
    User_role v = ADMIN ∧
    get_user_by_username self' username = Some account' ∧
    db_id account' = User_id principal ∧
    db_role account' = Some ADMIN ∧
    get_user_by_id self' (User_id principal) = Ok (Some v).
Proof.
  intros Hreach Hname Hview Hactive Hrole.
  apply reachable_invariants in Hreach as [_ Hids].
  destruct (find_by_id_of_found_by_username self username account Hids Hname)
    as (i & Hbyname & Hbyid).
  apply get_user_by_username_Some in Hname as [_ Husername].
  apply without_password_view in Hview
    as (Hid & Hun & Hemail & Hfn & Hro & Hact & Hca & Hua).
  set (updated := copy_update account (role_update ADMIN) now).
  assert (without_password updated =
          Ok (mkUser (db_id account) (db_username account) (User_email principal)
                (db_full_name account) ADMIN (User_is_active principal)
                (db_created_at account) (Some now))) as Hupdated.
  { rewrite (without_password_ok updated (User_email principal) ADMIN
               (User_is_active principal)); done. }
  unfold users.update_user, users.active_principal, auth.get_current_active_user.
  rewrite Hactive. simpl.
  rewrite bool_decide_false by (intros Hne; by apply Hne). simpl.
  unfold update_user. rewrite Hid, Hbyid. fold updated.
  rewrite Hupdated. simpl.
  eexists _, _, updated. split; [reflexivity|]. simpl.
  split; [done|]. split; [congruence|]. split; [done|].
  split; [|split; [done|split; [done|]]].
  - unfold get_user_by_username. simpl.
    by rewrite (list_find_insert_same _ _ i account updated Hbyname Husername).
  - unfold get_user_by_id. simpl.
    rewrite (list_find_insert_same _ _ i account updated Hbyid eq_refl).
    by rewrite Hupdated.
Qed.

(** Witness of C10: "john_doe", a plain user of the fresh service, makes
    itself admin. *)
Lemma self_promotion_to_admin_witness :
  ∃ self' v account',
    users.update_user 50 2 (role_update ADMIN)
      (mkUser 2 "john_doe" "john@example.com" (Some "John Doe") USER true 0 None)
      fresh_service = (self', Ok v) ∧
    User_id v = 2 ∧
    User_username v = "john_doe" ∧
    User_role v = ADMIN ∧
    get_user_by_username self' "john_doe" = Some account' ∧
    db_id account' = 2 ∧
    db_role account' = Some ADMIN ∧
    get_user_by_id self' 2 = Ok (Some v).
Proof.
  eapply (@self_promotion_to_admin reference_hasher 50 fresh_service "john_doe" _
            (mkUser 2 "john_doe" "john@example.com" (Some "John Doe") USER true 0 None)).
  - by apply (@reachable_init reference_hasher 0 0 "salt-1" "salt-2").
  - reflexivity.
  - reflexivity.
  - reflexivity.
  - left. reflexivity.
Defined.

(** * Further properties of the user service *)

(** ** The id counter along a run *)

Section Runs.
Context `{CredentialHasher}.

Lemma run_next_id_mono o self : _next_id self ≤ _next_id (run o self).
Proof.
  destruct o as [now salt uc | now user_id upd | user_id]; simpl.
  - destruct (create_user_cases now salt uc self)
      as [-> | (_ & _ & acct & -> & _)]; simpl; lia.
  - rewrite update_user_next_id. lia.
  - rewrite delete_user_next_id. lia.
Qed.

Lemma run_all_next_id_mono ops self : _next_id self ≤ _next_id (run_all ops self).
Proof.
  revert self. induction ops as [|o ops IH]; intros self; [done|].
  unfold run_all in *. simpl. etrans; [apply (run_next_id_mono o)|apply IH].
Qed.

Lemma reachable_run_all ops self : reachable self → reachable (run_all ops self).
Proof.
  revert self. induction ops as [|o ops IH]; intros self Hr; [done|].
  unfold run_all in *. simpl. apply IH. by constructor.
Qed.

Lemma reachable_id_bound self u :
  reachable self → u ∈ _users self → 1 ≤ db_id u < _next_id self.
Proof.
  intros Hr Hu. apply reachable_invariants in Hr as [_ (_ & Hb & _)].
  rewrite Forall_forall in Hb. apply Hb. by apply list_elem_of_fmap_2.
Qed.

(** X1. An id that an account of a reachable store holds is never given to
    an account created later, whatever operations, deletions of that very
    account included, are run in between: every later [create_user] that
    succeeds returns a strictly greater id. *)
Theorem assigned_id_never_reassigned (self : UserService) (u : UserInDB)
    (ops : list operation) (now : datetime) (salt : string) (uc : UserCreate)
    (self' : UserService) (v : User) :
  reachable self →
  u ∈ _users self →
  create_user now salt uc (run_all ops self) = (self', Ok v) →
  db_id u < User_id v.
Proof.
  intros Hr Hu Hcreate. apply create_user_ok_id in Hcreate.
  pose proof (reachable_id_bound self u Hr Hu).
  pose proof (run_all_next_id_mono ops self). lia.
Qed.

(** X2. What [create_user] stores can be read back: in a reachable store,
    after a successful [create_user] the returned view is what
    [get_user_by_id] gives for the new id, and the username and the email
    of the request both resolve to the new record, which carries the hash
    of the request's password. *)
Theorem create_user_then_lookups (self : UserService) (now : datetime)
    (salt : string) (uc : UserCreate) (self' : UserService) (v : User) :
  reachable self →
  create_user now salt uc self = (self', Ok v) →
  get_user_by_id self' (User_id v) = Ok (Some v) ∧
  ∃ account,
    get_user_by_username self' (uc_username uc) = Some account ∧
    get_user_by_email self' (uc_email uc) = Some account ∧
    view_of account v ∧
    db_hashed_password account = get_password_hash salt (uc_password uc).
Proof.
  intros Hr.
  destruct (get_user_by_username self (uc_username uc)) as [u|] eqn:Hu.
  { by erewrite create_user_duplicate_username. }
  destruct (get_user_by_email self (uc_email uc)) as [u|] eqn:He.
  { by erewrite create_user_duplicate_email. }
  rewrite create_user_fresh by done. intros [= <- <-]. simpl.
  assert (list_find (λ user, db_id user = _next_id self) (_users self) = None)
    as Hid.
  { apply list_find_None, Forall_forall. intros x Hx Heq.
    pose proof (reachable_id_bound self x Hr Hx). lia. }
  unfold get_user_by_username, get_user_by_email in Hu, He.
  apply fmap_None in Hu, He.
  split.
  - unfold get_user_by_id. simpl. rewrite list_find_app_r by done. simpl.
    rewrite decide_True by done. simpl. by erewrite without_password_ok.
  - eexists. unfold get_user_by_username, get_user_by_email. simpl.
    rewrite !list_find_app_r by done. simpl.
    rewrite !decide_True by done. simpl.
    split; [reflexivity|]. split; [reflexivity|]. repeat split.
Qed.
End Runs.

(** Witness of X1: id 2 is not given out again after john_doe is deleted. *)
Lemma assigned_id_never_reassigned_witness :
  ∃ self' v,
    @create_user reference_hasher 9 "salt-3"
      (mkUserCreate "john_doe" "john@example.com" None USER true "secret1")
      (@run_all reference_hasher [Delete 2] fresh_service) = (self', Ok v) ∧
    2 < User_id v.
Proof.
  eexists _, _. split; [vm_compute; reflexivity|].
  eapply (@assigned_id_never_reassigned reference_hasher fresh_service
            (mkUserInDB 2 "john_doe" (Some "john@example.com") (Some "John Doe")
               (Some USER) (Some true) 0 None "user123$salt-2")
            [Delete 2] 9 "salt-3"
            (mkUserCreate "john_doe" "john@example.com" None USER true "secret1")).
  - by apply (@reachable_init reference_hasher 0 0 "salt-1" "salt-2").
  - eapply (list_elem_of_lookup_2 _ 1%nat). reflexivity.
  - vm_compute. reflexivity.
Defined.

(** Witness of X2: "alice" on the fresh service. *)
Lemma create_user_then_lookups_witness :
  ∃ self' v,
    @create_user reference_hasher 9 "salt-3"
      (mkUserCreate "alice" "alice@x.com" None USER true "secret1")
      fresh_service = (self', Ok v) ∧
    get_user_by_id self' (User_id v) = Ok (Some v) ∧
    ∃ account,
      get_user_by_username self' "alice" = Some account ∧
      get_user_by_email self' "alice@x.com" = Some account ∧
      view_of account v ∧
      db_hashed_password account = "secret1$salt-3".
Proof.
  eexists _, _. split; [vm_compute; reflexivity|].
  eapply (@create_user_then_lookups reference_hasher fresh_service 9 "salt-3"
            (mkUserCreate "alice" "alice@x.com" None USER true "secret1")).
  - by apply (@reachable_init reference_hasher 0 0 "salt-1" "salt-2").
  - vm_compute. reflexivity.
Defined.

(** ** Deleting and updating accounts *)

Lemma filter_all {A} (P : A → Prop) `{∀ x, Decision (P x)} (l : list A) :
  Forall P l → filter P l = l.
Proof.
  induction 1 as [|x l Hx _ IH]; [done|].
  rewrite filter_cons_True by done. by rewrite IH.
Qed.

Lemma delete_found_filter (l : list UserInDB) (i : nat) (u : UserInDB) (id : Z) :
  NoDup (db_id <$> l) →
  list_find (λ user, db_id user = id) l = Some (i, u) →
  delete i l = filter (λ user, db_id user ≠ id) l.
Proof.
  revert i. induction l as [|x l IH]; intros i Hnd Hf; [done|].
  rewrite fmap_cons in Hnd. apply NoDup_cons in Hnd as [Hx Hnd].
  simpl in Hf. destruct (decide (db_id x = id)) as [Heq|Hne].
  - injection Hf as <- <-. simpl.
    rewrite filter_cons_False by (intros Hne; by apply Hne).
    symmetry. apply filter_all, Forall_forall. intros y Hy Hyid.
    apply Hx. rewrite Heq, <- Hyid. by apply list_elem_of_fmap_2.
  - destruct (list_find _ l) as [[j y]|] eqn:Hl; [|done].
    injection Hf as <- <-. simpl.
    rewrite filter_cons_True by done. f_equal. by apply IH.
Qed.

Section Deleting.
Context `{CredentialHasher}.

(** X3. [delete_user] removes exactly the account with the given id: in a
    reachable store it answers [True] precisely when some account has the
    id, the accounts left are the others in their order, the id counter
    does not move, the id no longer resolves, and when it answers [False]
    the store is as it was. *)
Theorem delete_user_removes_exactly (self : UserService) (user_id : Z) :
  reachable self →
  ((delete_user user_id self).2 = true ↔
     ∃ u, u ∈ _users self ∧ db_id u = user_id) ∧
  _users (delete_user user_id self).1
    = filter (λ u, db_id u ≠ user_id) (_users self) ∧
  _next_id (delete_user user_id self).1 = _next_id self ∧
  get_user_by_id (delete_user user_id self).1 user_id = Ok None ∧
  ((delete_user user_id self).2 = false → (delete_user user_id self).1 = self).
Proof.
  intros Hr. apply reachable_invariants in Hr as [_ Hids].
  apply ids_increasing_NoDup in Hids.
  assert (list_find (λ user, db_id user = user_id)
            (filter (λ u, db_id u ≠ user_id) (_users self)) = None) as Hgone.
  { apply list_find_None, Forall_forall. intros x Hx.
    by apply list_elem_of_filter in Hx as [Hx _]. }
  unfold delete_user, get_user_by_id.
  destruct (list_find _ (_users self)) as [[i u]|] eqn:Hf; simpl.
  - rewrite (delete_found_filter _ i u user_id Hids Hf), Hgone.
    apply list_find_Some in Hf as (Hi & Hu & _).
    repeat split; try done.
    intros _. exists u. split; [by eapply list_elem_of_lookup_2 | done].
  - rewrite Hf. apply list_find_None in Hf as Hnone.
    rewrite filter_all by done.
    repeat split; try done.
    intros (u & Hin & Hu). rewrite Forall_forall in Hnone.
    by destruct (Hnone u Hin).
Qed.
End Deleting.

(** Witness of X3: deleting john_doe from the fresh service. *)
Lemma delete_user_removes_exactly_witness :
  (delete_user 2 fresh_service).2 = true ∧
  (db_username <$> _users (delete_user 2 fresh_service).1) = ["admin"] ∧
  get_user_by_id (delete_user 2 fresh_service).1 2 = Ok None ∧
  (delete_user 7 fresh_service).1 = fresh_service.
Proof.
  destruct (@delete_user_removes_exactly reference_hasher fresh_service 2)
    as (Hdeleted & Hleft & _ & Hgone & _).
  { by apply (@reachable_init reference_hasher 0 0 "salt-1" "salt-2"). }
  destruct (@delete_user_removes_exactly reference_hasher fresh_service 7)
    as (_ & _ & _ & _ & Hsame).
  { by apply (@reachable_init reference_hasher 0 0 "salt-1" "salt-2"). }
  split; [|split; [|split]].
  - apply Hdeleted. eexists.
    split; [eapply (list_elem_of_lookup_2 _ 1%nat); reflexivity | reflexivity].
  - rewrite Hleft. reflexivity.
  - exact Hgone.
  - apply Hsame. reflexivity.
Defined.

(** X4. [update_user] is a partial update of one account: whatever the
    store, it keeps the number of accounts, the id counter, and every
    account's id, username, creation time and password hash; it leaves
    every account with another id as it was; a field the request does not
    supply keeps its value in every account; and when no account has the
    id, the store is unchanged and the answer is [None]. *)
Theorem update_user_is_partial (now : datetime) (user_id : Z)
    (upd : UserUpdate) (self : UserService) :
  let self' := (update_user now user_id upd self).1 in
  length (_users self') = length (_users self) ∧
  _next_id self' = _next_id self ∧
  db_id <$> _users self' = db_id <$> _users self ∧
  db_username <$> _users self' = db_username <$> _users self ∧
  db_created_at <$> _users self' = db_created_at <$> _users self ∧
  db_hashed_password <$> _users self' = db_hashed_password <$> _users self ∧
  (∀ j u, _users self !! j = Some u → db_id u ≠ user_id →
          _users self' !! j = Some u) ∧
  (∀ j u u', _users self !! j = Some u → _users self' !! j = Some u' →
     (upd_email upd = Unset → db_email u' = db_email u) ∧
     (upd_full_name upd = Unset → db_full_name u' = db_full_name u) ∧
     (upd_role upd = Unset → db_role u' = db_role u) ∧
     (upd_is_active upd = Unset → db_is_active u' = db_is_active u)) ∧
  ((∀ u, u ∈ _users self → db_id u ≠ user_id) →
     update_user now user_id upd self = (self, Ok None)).
Proof.
  intros self'. subst self'. unfold update_user.
  destruct (list_find _ _) as [[i user]|] eqn:Hf; simpl.
  - apply list_find_Some in Hf as (Hi & Hid & _).
    assert (∀ {B} (f : UserInDB → B),
              f (copy_update user upd now) = f user →
              f <$> <[i:=copy_update user upd now]> (_users self)
                = f <$> _users self) as Hkeep.
    { intros B f Hf. rewrite list_fmap_insert, Hf. apply list_insert_id.
      by rewrite list_lookup_fmap, Hi. }
    rewrite length_insert, !Hkeep by done.
    do 6 (split; [done|]). split; [|split].
    + intros j u Hj Hne. rewrite list_lookup_insert_ne; [done|].
      intros ->. rewrite Hi in Hj. injection Hj as <-. by apply Hne.
    + intros j u u' Hj Hj'.
      destruct (decide (i = j)) as [->|Hij].
      * rewrite list_lookup_insert_eq in Hj' by (by eapply lookup_lt_Some).
        injection Hj' as <-. rewrite Hi in Hj. injection Hj as <-.
        simpl. repeat split; by intros ->.
      * rewrite list_lookup_insert_ne in Hj' by done.
        rewrite Hj in Hj'. injection Hj' as <-. done.
    + intros Hnone. destruct (Hnone user); [by eapply list_elem_of_lookup_2|done].
  - do 7 (split; [done|]). split; [|done].
    intros j u u' Hj Hj'. rewrite Hj in Hj'. by injection Hj' as <-.
Qed.

(** Witness of X4: deactivating john_doe on the fresh service changes
    nothing else. *)
Lemma update_user_is_partial_witness :
  let upd := mkUserUpdate Unset Unset Unset (Given (Some false)) in
  let self' := (update_user 9 2 upd fresh_service).1 in
  _users self' !! 0%nat = _users fresh_service !! 0%nat ∧
  (db_email <$> _users self') = (db_email <$> _users fresh_service) ∧
  update_user 9 7 upd fresh_service = (fresh_service, Ok None).
Proof.
  intros upd self'.
  destruct (update_user_is_partial 9 2 upd fresh_service)
    as (_ & _ & _ & _ & _ & _ & Hothers & Hunset & _).
  destruct (update_user_is_partial 9 7 upd fresh_service)
    as (_ & _ & _ & _ & _ & _ & _ & _ & Hmissing).
  split; [|split].
  - destruct (_users fresh_service !! 0%nat) as [admin|] eqn:Hadmin; [|done].
    apply (Hothers 0%nat admin Hadmin).
    vm_compute in Hadmin. injection Hadmin as <-. simpl. discriminate.
  - vm_compute. reflexivity.
  - apply Hmissing. intros u Hu. vm_compute in Hu.
    repeat (apply elem_of_cons in Hu as [->|Hu]; [simpl; discriminate|]).
    apply elem_of_nil in Hu. destruct Hu.
Defined.

Lemma list_find_insert_iff {A} (P : A → Prop) `{∀ x, Decision (P x)}
    (l : list A) (i : nat) (x y : A) :
  l !! i = Some x → (P x ↔ P y) →
  list_find P (<[i:=y]> l)
    = (λ jz, (jz.1, if decide (jz.1 = i) then y else jz.2)) <$> list_find P l.
Proof.
  revert i. induction l as [|a l IH]; intros i Hi Hxy; [done|].
  destruct i as [|i]; simpl in *.
  - injection Hi as ->.
    destruct (decide (P x)) as [Hx|Hx], (decide (P y)) as [Hy|Hy];
      try tauto; simpl; try done.
    destruct (list_find P l) as [[k z]|]; simpl; done.
  - destruct (decide (P a)); simpl; [done|].
    rewrite (IH i Hi Hxy).
    destruct (list_find P l) as [[k z]|]; simpl; [|done].
    destruct (decide (k = i)), (decide (S k = S i)); simpl; done || lia.
Qed.

Lemma without_password_ill_typed (u : UserInDB) :
  ¬ well_typed u → ∃ field, without_password u = Raise (ValidationError field).
Proof.
  intros Hill.
  destruct u as [i n [e|] fn [r|] [a|] ca ua hp]; destruct fn, ua;
    try (eexists; vm_compute; reflexivity).
  all: destruct Hill; repeat split; by eexists.
Qed.

Section Updating.
Context `{CredentialHasher}.

(** X5. [update_user] never touches credentials: whatever the store and
    the request, the same username and password authenticate afterwards as
    before, and as the account with the same id; this includes an account
    that the update deactivates. *)
Theorem update_user_keeps_credentials (now : datetime) (user_id : Z)
    (upd : UserUpdate) (self : UserService) (username password : string) :
  db_id <$> authenticate_user (update_user now user_id upd self).1 username password
    = db_id <$> authenticate_user self username password.
Proof.
  unfold update_user.
  destruct (list_find _ _) as [[i user]|] eqn:Hf; [|done]. simpl.
  apply list_find_Some in Hf as (Hi & _ & _).
  unfold authenticate_user, get_user_by_username. simpl.
  rewrite (list_find_insert_iff _ _ i user (copy_update user upd now) Hi)
    by done.
  destruct (list_find _ (_users self)) as [[j z]|] eqn:Hfind; simpl; [|done].
  destruct (decide (j = i)) as [->|Hne]; [|done].
  apply list_find_Some in Hfind as (Hj & _ & _).
  rewrite Hi in Hj. injection Hj as <-. simpl.
  by destruct (verify_password _ _).
Qed.

(** X6. A failing update is not rolled back: when an account has the id
    and the request supplies an explicit null for [email], [role] or
    [is_active], [update_user] writes the record first and then raises a
    validation error; the store the call leaves holds the record with
    the null, and [get_user_by_id] raises for that id on it. *)
Theorem update_user_null_is_stored (now : datetime) (user_id : Z)
    (upd : UserUpdate) (self : UserService) :
  (∃ u, u ∈ _users self ∧ db_id u = user_id) →
  upd_email upd = Given None ∨ upd_role upd = Given None
    ∨ upd_is_active upd = Given None →
  ∃ field stored,
    (update_user now user_id upd self).2 = Raise (ValidationError field) ∧
    stored ∈ _users (update_user now user_id upd self).1 ∧
    db_id stored = user_id ∧
    ¬ well_typed stored ∧
    get_user_by_id (update_user now user_id upd self).1 user_id
      = Raise (ValidationError field).
Proof.
  intros (u & Hu & Hid) Hnull.
  destruct (list_find_elem_of (λ user, db_id user = user_id) (_users self)
              u Hu Hid) as [[i user] Hf].
  unfold update_user, get_user_by_id. rewrite Hf. simpl.
  assert (¬ well_typed (copy_update user upd now)) as Hill.
  { intros (He & Hr & Ha). simpl in *.
    destruct Hnull as [Hn|[Hn|Hn]]; rewrite Hn in *; simpl in *;
      by eapply is_Some_None. }
  destruct (without_password_ill_typed _ Hill) as (field & Hraise).
  apply list_find_Some in Hf as Hf'. destruct Hf' as (Hi & Hid' & _).
  exists field, (copy_update user upd now).
  rewrite (list_find_insert_same _ _ i user (copy_update user upd now) Hf Hid'),
    Hraise. simpl.
  split; [reflexivity|]. split.
  { apply list_elem_of_insert. by eapply lookup_lt_Some. }
  split; [exact Hid'|]. split; [exact Hill | reflexivity].
Qed.

(** X9. In a reachable store every account can be found again: its
    username resolves to it and to no other record, and so does its id,
    whose view [get_user_by_id] returns when the record is well typed. *)
Theorem stored_accounts_resolve (self : UserService) (u : UserInDB) :
  reachable self →
  u ∈ _users self →
  get_user_by_username self (db_username u) = Some u ∧
  (∀ v, without_password u = Ok v →
        get_user_by_id self (db_id u) = Ok (Some v)).
Proof.
  intros Hr Hu. apply reachable_invariants in Hr as [Hnames Hids].
  apply ids_increasing_NoDup in Hids.
  apply list_elem_of_lookup_1 in Hu as [i Hi].
  assert (list_find (λ user, db_username user = db_username u) (_users self)
          = Some (i, u)) as Hbyname.
  { apply list_find_Some. split; [done|]. split; [done|].
    intros j y Hj Hlt Heq.
    assert (j = i) as ->; [|lia].
    eapply NoDup_lookup; [exact Hnames| |].
    - by rewrite list_lookup_fmap, Hj.
    - rewrite list_lookup_fmap, Hi. simpl. by rewrite Heq. }
  assert (list_find (λ user, db_id user = db_id u) (_users self)
          = Some (i, u)) as Hbyid.
  { apply list_find_Some. split; [done|]. split; [done|].
    intros j y Hj Hlt Heq.
    assert (j = i) as ->; [|lia].
    eapply NoDup_lookup; [exact Hids| |].
    - by rewrite list_lookup_fmap, Hj.
    - rewrite list_lookup_fmap, Hi. simpl. by rewrite Heq. }
  unfold get_user_by_username, get_user_by_id. rewrite Hbyname, Hbyid.
  split; [done|]. by intros v ->.
Qed.

(** X8. Registration is open and takes the role from the request: for
    every username and email that no account holds and every password of
    at least 6 characters, [register_user] with [role = admin] succeeds
    without any principal, and the account it returns passes the admin
    guard. *)
Theorem anyone_can_register_as_admin (now : datetime)
    (salt username email password : string) (full_name : option string)
    (self : UserService) :
  (6 ≤ String.length password)%nat →
  (∀ u, u ∈ _users self → db_username u ≠ username) →
  (∀ u, u ∈ _users self → db_email u ≠ Some email) →
  ∃ self' v,
    auth.register_user now salt username email password full_name ADMIN true
      self = (self', Ok v) ∧
    User_username v = username ∧
    User_role v = ADMIN ∧
    users.admin_principal v = Ok v.
Proof.
  intros Hlen Hname Hmail.
  apply get_user_by_username_None in Hname.
  apply get_user_by_email_None in Hmail.
  unfold auth.register_user, UserCreate_new.
  rewrite validate_password_ok by done. simpl.
  rewrite create_user_fresh by done. simpl.
  eexists _, _. split; [reflexivity|]. by repeat split.
Qed.

(** X7. Activity is checked per request, not at login: for every username
    and email that no account holds, registering with [is_active = false]
    succeeds, the new account then authenticates and is given a bearer
    token, and the active-user guard turns its principal away with 400. *)
Theorem inactive_account_logs_in (now now' : datetime)
    (salt username email password : string) (full_name : option string)
    (role : UserRole) (self : UserService) :
  hasher_sound →
  (6 ≤ String.length password)%nat →
  (∀ u, u ∈ _users self → db_username u ≠ username) →
  (∀ u, u ∈ _users self → db_email u ≠ Some email) →
  ∃ self' v token,
    auth.register_user now salt username email password full_name role false
      self = (self', Ok v) ∧
    is_Some (authenticate_user self' username password) ∧
    auth.login_for_access_token self' username password now'
      = Ok (token, "bearer") ∧
    auth.get_current_active_user v = Raise (HTTPException 400 "Inactive user").
Proof.
  intros Hsound Hlen Hname Hmail.
  apply get_user_by_username_None in Hname as Hname'.
  apply get_user_by_email_None in Hmail.
  unfold auth.register_user, UserCreate_new.
  rewrite validate_password_ok by done. simpl.
  rewrite create_user_fresh by done. simpl.
  unfold auth.login_for_access_token, authenticate_user.
  match goal with
  | |- context [_users self ++ [?a]] =>
      destruct (get_user_by_username_appended (_users self) (_next_id self)
                  (_next_id self + 1) a) as [Hfound _]; [exact Hname|]
  end.
  simpl in Hfound.
  eexists _, _, _. split; [reflexivity|].
  rewrite Hfound. simpl. rewrite Hsound. simpl.
  split; [by eexists|]. split; reflexivity.
Qed.
End Updating.

(** Witness of X6: a null email for john_doe on the fresh service. *)
Lemma update_user_null_is_stored_witness :
  let upd := mkUserUpdate (Given None) Unset Unset Unset in
  ∃ field stored,
    (update_user 9 2 upd fresh_service).2 = Raise (ValidationError field) ∧
    stored ∈ _users (update_user 9 2 upd fresh_service).1 ∧
    db_id stored = 2 ∧
    ¬ well_typed stored ∧
    get_user_by_id (update_user 9 2 upd fresh_service).1 2
      = Raise (ValidationError field).
Proof.
  intros upd. apply (update_user_null_is_stored 9 2 upd fresh_service).
  - eexists.
    split; [eapply (list_elem_of_lookup_2 _ 1%nat); reflexivity | reflexivity].
  - left. reflexivity.
Defined.

(** Witness of X9: john_doe in the fresh service. *)
Lemma stored_accounts_resolve_witness :
  ∃ john,
    _users fresh_service !! 1%nat = Some john ∧
    get_user_by_username fresh_service (db_username john) = Some john ∧
    (∀ v, without_password john = Ok v →
          get_user_by_id fresh_service (db_id john) = Ok (Some v)).
Proof.
  eexists. split; [vm_compute; reflexivity|].
  apply (@stored_accounts_resolve reference_hasher fresh_service).
  - by apply (@reachable_init reference_hasher 0 0 "salt-1" "salt-2").
  - eapply (list_elem_of_lookup_2 _ 1%nat). vm_compute. reflexivity.
Defined.

(** Witness of X8: "mallory" registers as admin on the fresh service. *)
Lemma anyone_can_register_as_admin_witness :
  ∃ self' v,
    @auth.register_user reference_hasher 9 "salt-3" "mallory" "m@x.com"
      "secret1" None ADMIN true fresh_service = (self', Ok v) ∧
    User_username v = "mallory" ∧
    User_role v = ADMIN ∧
    users.admin_principal v = Ok v.
Proof.
  apply (@anyone_can_register_as_admin reference_hasher).
  - vm_compute. lia.
  - apply get_user_by_username_None. reflexivity.
  - apply get_user_by_email_None. reflexivity.
Defined.

(** Witness of X7: an account registered inactive on the fresh service. *)
Lemma inactive_account_logs_in_witness :
  ∃ self' v token,
    @auth.register_user reference_hasher 9 "salt-3" "dormant" "d@x.com"
      "secret1" None USER false fresh_service = (self', Ok v) ∧
    is_Some (@authenticate_user reference_hasher self' "dormant" "secret1") ∧
    @auth.login_for_access_token reference_hasher self' "dormant" "secret1" 20
      = Ok (token, "bearer") ∧
    auth.get_current_active_user v = Raise (HTTPException 400 "Inactive user").
Proof.
  apply (@inactive_account_logs_in reference_hasher).
  - exact reference_hasher_sound.
  - vm_compute. lia.
  - apply get_user_by_username_None. reflexivity.
  - apply get_user_by_email_None. reflexivity.
Defined.

(** * Properties of the user management endpoints *)

Lemma Query_Ok (ge le : option Z) (name : string) (value n : Z) :
  Query ge le name value = Ok n →
  n = value ∧ (∀ lo, ge = Some lo → lo ≤ value) ∧ (∀ hi, le = Some hi → value ≤ hi).
Proof.
  unfold Query. destruct ge as [lo|], le as [hi|]; simpl;
    repeat (case_match; simpl); intros [= <-]; repeat split;
    intros ? [= <-]; lia.
Qed.

Lemma NoDup_fmap_elem_eq {A B} (f : A → B) (l : list A) (x y : A) :
  NoDup (f <$> l) → x ∈ l → y ∈ l → f x = f y → x = y.
Proof.
  intros Hnd Hx Hy Hxy.
  apply list_elem_of_lookup_1 in Hx as [i Hi].
  apply list_elem_of_lookup_1 in Hy as [j Hj].
  assert (i = j) as ->; [|congruence].
  eapply NoDup_lookup; [exact Hnd| |].
  - by rewrite list_lookup_fmap, Hi.
  - rewrite list_lookup_fmap, Hj. simpl. by rewrite Hxy.
Qed.

Lemma update_user_missing (now : datetime) (user_id : Z) (upd : UserUpdate)
    (self : UserService) :
  (∀ u, u ∈ _users self → db_id u ≠ user_id) →
  update_user now user_id upd self = (self, Ok None).
Proof.
  intros Hnone. unfold update_user.
  assert (list_find (λ user, db_id user = user_id) (_users self) = None) as ->;
    [|done].
  by apply list_find_None, Forall_forall.
Qed.

Lemma delete_user_missing (user_id : Z) (self : UserService) :
  (∀ u, u ∈ _users self → db_id u ≠ user_id) →
  delete_user user_id self = (self, false).
Proof.
  intros Hnone. unfold delete_user.
  assert (list_find (λ user, db_id user = user_id) (_users self) = None) as ->;
    [|done].
  by apply list_find_None, Forall_forall.
Qed.

(** X10. Who may update whom: the PUT handler leaves the store untouched
    and answers 400 to an inactive principal, 403 to an active principal
    that is neither the target nor an admin, and 404 when the principal
    is allowed but no account has the id; an active principal that is the
    target or an admin gets exactly the service's [update_user]. *)
Theorem update_endpoint_authorization (now : datetime) (user_id : Z)
    (upd : UserUpdate) (principal : User) (self : UserService) :
  (User_is_active principal = false →
     users.update_user now user_id upd principal self
       = (self, Raise (HTTPException 400 "Inactive user"))) ∧
  (User_is_active principal = true →
   User_id principal ≠ user_id → User_role principal ≠ ADMIN →
     users.update_user now user_id upd principal self
       = (self, Raise (HTTPException 403 "Not enough permissions"))) ∧
  (User_is_active principal = true →
   User_id principal = user_id ∨ User_role principal = ADMIN →
     (users.update_user now user_id upd principal self).1
       = (update_user now user_id upd self).1 ∧
     ((∀ u, u ∈ _users self → db_id u ≠ user_id) →
        users.update_user now user_id upd principal self
          = (self, Raise (HTTPException 404 "User not found"))) ∧
     (∀ v, (update_user now user_id upd self).2 = Ok (Some v) →
           (users.update_user now user_id upd principal self).2 = Ok v)).
Proof.
  unfold users.update_user, users.active_principal, auth.get_current_active_user.
  split; [|split].
  - by intros ->.
  - intros -> Hid Hrole. simpl.
    by rewrite !bool_decide_true.
  - intros -> Hallowed. simpl.
    assert (bool_decide (User_id principal ≠ user_id)
            && bool_decide (User_role principal ≠ ADMIN) = false) as ->.
    { destruct Hallowed as [Hid|Hrole].
      - rewrite (bool_decide_false (User_id principal ≠ user_id)); [done|].
        intros Hne. by apply Hne.
      - rewrite (bool_decide_false (User_role principal ≠ ADMIN)).
        + by rewrite andb_false_r.
        + intros Hne. by apply Hne. }
    split; [|split].
    + by destruct (update_user now user_id upd self) as [s' [[v|]|e]].
    + intros Hnone. by rewrite (update_user_missing now user_id upd self Hnone).
    + intros v.
      destruct (update_user now user_id upd self) as [s' [[v'|]|e]];
        simpl; congruence.
Qed.

(** Witness of X10: john_doe, a plain user, on the fresh service: refused
    for the admin's account, served for its own. *)
Lemma update_endpoint_authorization_witness :
  let john := mkUser 2 "john_doe" "john@example.com" (Some "John Doe") USER true 0 None in
  let upd := mkUserUpdate Unset (Given (Some "Johnny")) Unset Unset in
  users.update_user 9 1 upd john fresh_service
    = (fresh_service, Raise (HTTPException 403 "Not enough permissions")) ∧
  (users.update_user 9 2 upd john fresh_service).1
    = (update_user 9 2 upd fresh_service).1 ∧
  users.update_user 9 2 upd
    (mkUser 2 "john_doe" "john@example.com" (Some "John Doe") USER false 0 None)
    fresh_service
    = (fresh_service, Raise (HTTPException 400 "Inactive user")).
Proof.
  intros john upd. split; [|split].
  - apply (proj1 (proj2 (update_endpoint_authorization 9 1 upd john fresh_service)));
      [reflexivity | simpl; discriminate | simpl; discriminate].
  - apply (proj2 (proj2 (update_endpoint_authorization 9 2 upd john fresh_service)));
      [reflexivity | left; reflexivity].
  - apply (proj1 (update_endpoint_authorization 9 2 upd _ fresh_service)).
    reflexivity.
Defined.

Section Removing.
Context `{CredentialHasher}.

(** X11. Who may delete whom: the DELETE handler leaves the store
    untouched and answers 400 to an inactive principal, 403 to an active
    principal that is not an admin, and 404 to an active admin when no
    account has the id; for an active admin and an id in use it removes
    one account and answers with the success message. *)
Theorem delete_endpoint_outcomes (user_id : Z) (principal : User)
    (self : UserService) :
  (User_is_active principal = false →
     users.delete_user user_id principal self
       = (self, Raise (HTTPException 400 "Inactive user"))) ∧
  (User_is_active principal = true → User_role principal ≠ ADMIN →
     users.delete_user user_id principal self
       = (self, Raise (HTTPException 403 "Not enough permissions"))) ∧
  (User_is_active principal = true → User_role principal = ADMIN →
     ((∀ u, u ∈ _users self → db_id u ≠ user_id) →
        users.delete_user user_id principal self
          = (self, Raise (HTTPException 404 "User not found"))) ∧
     ((∃ u, u ∈ _users self ∧ db_id u = user_id) →
        ∃ self',
          users.delete_user user_id principal self
            = (self', Ok "User deleted successfully") ∧
          S (length (_users self')) = length (_users self) ∧
          _users self' `sublist_of` _users self)).
Proof.
  unfold users.delete_user, users.admin_principal,
    auth.get_current_active_user, users.get_admin_user.
  split; [|split].
  - by intros ->.
  - intros -> Hrole. simpl. by rewrite decide_True.
  - intros -> Hrole. simpl.
    rewrite decide_False by (intros Hne; by apply Hne). simpl.
    split.
    + intros Hnone. by rewrite (delete_user_missing user_id self Hnone).
    + intros (u & Hu & Hid).
      destruct (list_find_elem_of (λ user, db_id user = user_id) (_users self)
                  u Hu Hid) as [[i x] Hf].
      unfold delete_user. rewrite Hf. eexists. split; [reflexivity|]. simpl.
      apply list_find_Some in Hf as (Hi & _ & _).
      split; [|apply sublist_delete].
      rewrite length_delete by (by eexists). apply lookup_lt_Some in Hi. lia.
Qed.

(** X12. An admin can delete its own account, the last admin included: in
    a reachable store, for an active admin principal that the store
    resolves for its username, the DELETE on the principal's own id
    succeeds; afterwards the username resolves to nothing, and when no
    other account was an admin, no admin is left. *)
Theorem admin_can_delete_itself (self : UserService) (username : string)
    (account : UserInDB) (principal : User) :
  reachable self →
  get_user_by_username self username = Some account →
  without_password account = Ok principal →
  User_is_active principal = true →
  User_role principal = ADMIN →
  ∃ self',
    users.delete_user (User_id principal) principal self
      = (self', Ok "User deleted successfully") ∧
    get_user_by_username self' username = None ∧
    get_user_by_id self' (User_id principal) = Ok None ∧
    ((∀ u, u ∈ _users self → u ≠ account → db_role u ≠ Some ADMIN) →
     ∀ u, u ∈ _users self' → db_role u ≠ Some ADMIN).
Proof.
  intros Hr Hname Hview Hactive Hrole.
  apply reachable_invariants in Hr as [Hnames Hids].
  apply ids_increasing_NoDup in Hids as Hnd.
  destruct (find_by_id_of_found_by_username self username account Hids Hname)
    as (i & Hbyname & Hbyid).
  apply get_user_by_username_Some in Hname as [Hin Husername].
  apply without_password_view in Hview as (Hid & _).
  unfold users.delete_user, users.admin_principal,
    auth.get_current_active_user, users.get_admin_user.
  rewrite Hactive. simpl.
  rewrite decide_False by (intros Hne; by apply Hne). simpl.
  unfold delete_user. rewrite Hid, Hbyid.
  eexists. split; [reflexivity|]. simpl.
  rewrite (delete_found_filter _ i account (db_id account) Hnd Hbyid).
  split; [|split].
  - apply get_user_by_username_None. simpl. intros u Hu Hsame.
    apply list_elem_of_filter in Hu as [Hne Hu]. apply Hne.
    f_equal. eapply (NoDup_fmap_elem_eq db_username); eauto. congruence.
  - unfold get_user_by_id. simpl.
    assert (list_find (λ user, db_id user = db_id account)
              (filter (λ user, db_id user ≠ db_id account) (_users self))
            = None) as ->; [|done].
    apply list_find_None, Forall_forall. intros x Hx.
    by apply list_elem_of_filter in Hx as [Hx _].
  - intros Honly u Hu.
    apply list_elem_of_filter in Hu as [Hne Hu].
    apply Honly; [done|]. intros ->. by apply Hne.
Qed.
End Removing.

(** Witness of X11: the admin of the fresh service deletes john_doe;
    john_doe may not delete the admin. *)
Lemma delete_endpoint_outcomes_witness :
  let admin := mkUser 1 "admin" "admin@example.com" (Some "Administrator") ADMIN true 0 None in
  let john := mkUser 2 "john_doe" "john@example.com" (Some "John Doe") USER true 0 None in
  users.delete_user 1 john fresh_service
    = (fresh_service, Raise (HTTPException 403 "Not enough permissions")) ∧
  users.delete_user 7 admin fresh_service
    = (fresh_service, Raise (HTTPException 404 "User not found")) ∧
  ∃ self',
    users.delete_user 2 admin fresh_service
      = (self', Ok "User deleted successfully") ∧
    S (length (_users self')) = length (_users fresh_service) ∧
    _users self' `sublist_of` _users fresh_service.
Proof.
  intros admin john. split; [|split].
  - apply (proj1 (proj2 (delete_endpoint_outcomes 1 john fresh_service)));
      [reflexivity | simpl; discriminate].
  - apply (proj1 (proj2 (proj2 (delete_endpoint_outcomes 7 admin fresh_service))
                    eq_refl eq_refl)).
    intros u Hu. vm_compute in Hu.
    repeat (apply elem_of_cons in Hu as [->|Hu]; [simpl; discriminate|]).
    apply elem_of_nil in Hu. destruct Hu.
  - apply (proj2 (proj2 (proj2 (delete_endpoint_outcomes 2 admin fresh_service))
                    eq_refl eq_refl)).
    eexists.
    split; [eapply (list_elem_of_lookup_2 _ 1%nat); reflexivity | reflexivity].
Defined.

(** Witness of X12: the only admin of the fresh service deletes itself. *)
Lemma admin_can_delete_itself_witness :
  let admin := mkUser 1 "admin" "admin@example.com" (Some "Administrator") ADMIN true 0 None in
  ∃ self',
    users.delete_user 1 admin fresh_service
      = (self', Ok "User deleted successfully") ∧
    get_user_by_username self' "admin" = None ∧
    get_user_by_id self' 1 = Ok None ∧
    (∀ u, u ∈ _users self' → db_role u ≠ Some ADMIN).
Proof.
  intros admin.
  destruct (@admin_can_delete_itself reference_hasher fresh_service "admin"
              (mkUserInDB 1 "admin" (Some "admin@example.com")
                 (Some "Administrator") (Some ADMIN) (Some true) 0 None
                 "admin123$salt-1") admin)
    as (self' & Hdel & Hname & Hid & Hlast).
  - by apply (@reachable_init reference_hasher 0 0 "salt-1" "salt-2").
  - reflexivity.
  - reflexivity.
  - reflexivity.
  - reflexivity.
  - exists self'. split; [exact Hdel|]. split; [exact Hname|].
    split; [exact Hid|].
    apply Hlast. intros u Hu Hne. vm_compute in Hu.
    apply elem_of_cons in Hu as [->|Hu]; [by destruct Hne|].
    apply elem_of_cons in Hu as [->|Hu]; [simpl; discriminate|].
    apply elem_of_nil in Hu. destruct Hu.
Defined.

(** ** The read endpoints *)

(** X13. The listing endpoint never answers an inactive principal and
    never returns a page of more than 100 accounts: whenever it returns,
    the principal is active, [skip >= 0], [1 <= limit <= 100], the page
    has at most [limit] views, and each is the hash-free view of a stored
    account. *)
Theorem users_page_is_bounded (skip limit : Z) (principal : User)
    (self : UserService) (views : list User) :
  users_get.get_users skip limit principal self = Ok views →
  User_is_active principal = true ∧
  0 ≤ skip ∧ 1 ≤ limit ≤ 100 ∧
  Z.of_nat (length views) ≤ limit ∧
  Forall (public_view_in self) views.
Proof.
  unfold users_get.get_users, users.active_principal,
    auth.get_current_active_user.
  destruct (User_is_active principal); [|done]. simpl.
  destruct (Query (Some 0) None "skip" skip) as [skip'|] eqn:Hskip; [|done].
  apply Query_Ok in Hskip as (-> & Hlo & _). specialize (Hlo 0 eq_refl).
  simpl.
  destruct (Query (Some 1) (Some 100) "limit" limit) as [limit'|] eqn:Hlimit;
    [|done].
  apply Query_Ok in Hlimit as (-> & Hlo' & Hhi).
  specialize (Hlo' 1 eq_refl). specialize (Hhi 100 eq_refl). simpl.
  intros Hget. split; [done|]. split; [done|]. split; [done|].
  unfold get_users in Hget. rewrite py_slice_window in Hget by lia.
  apply comprehension_Forall2 in Hget as Hall. split.
  - apply Forall2_length in Hall. rewrite <- Hall, length_take. lia.
  - apply Forall_lookup. intros i v Hi.
    destruct (Forall2_lookup_r _ _ _ _ _ Hall Hi) as (u & Hu & Hv).
    eapply public_view_in_intro; [|exact Hv].
    eapply elem_of_sublist; [by eapply list_elem_of_lookup_2|].
    etrans; [apply sublist_take | apply sublist_drop].
Qed.


(** Witness of X13: the first page of the fresh service. *)
Lemma users_page_is_bounded_witness :
  let john := mkUser 2 "john_doe" "john@example.com" (Some "John Doe") USER true 0 None in
  ∃ views,
    users_get.get_users 0 1 john fresh_service = Ok views ∧
    Z.of_nat (length views) ≤ 1 ∧
    Forall (public_view_in fresh_service) views.
Proof.
  intros john. eexists. split; [vm_compute; reflexivity|].
  eapply (users_page_is_bounded 0 1 john fresh_service). vm_compute. reflexivity.
Defined.


(** * Properties of the product service *)

Lemma validate_price_Ok (v v' : PrimFloat.float) :
  validate_price v = Ok v' → v' = v ∧ PrimFloat.ltb v PrimFloat.zero = false.
Proof.
  unfold validate_price. destruct (PrimFloat.ltb v PrimFloat.zero); [done|].
  by intros [= <-].
Qed.

Lemma create_product_cases now pc self :
  (PrimFloat.ltb (pc_price pc) PrimFloat.zero = true ∧
   product_service.create_product now pc self
     = (self, Raise (ValidationError "price"))) ∨
  (PrimFloat.ltb (pc_price pc) PrimFloat.zero = false ∧
   ∃ product,
     product_service.create_product now pc self
       = (product_service.mkProductService
            (product_service._products self ++ [product])
            (product_service._next_id self + 1), Ok product) ∧
     p_id product = product_service._next_id self ∧
     p_name product = Some (pc_name pc) ∧
     p_price product = Some (pc_price pc) ∧
     p_category product = Some (pc_category pc) ∧
     p_in_stock product = Some (pc_in_stock pc)).
Proof.
  unfold product_service.create_product, validate_price.
  destruct (PrimFloat.ltb (pc_price pc) PrimFloat.zero); [left|right]; [done|].
  split; [done|]. eexists. split; [reflexivity|]. done.
Qed.

Lemma product_update_ids now product_id upd self :
  p_id <$> product_service._products
             (product_service.update_product now product_id upd self).1
  = p_id <$> product_service._products self ∧
  product_service._next_id
    (product_service.update_product now product_id upd self).1
  = product_service._next_id self.
Proof.
  unfold product_service.update_product.
  destruct (list_find _ _) as [[i product]|] eqn:Hf; [|done]. simpl.
  apply list_find_Some in Hf as (Hi & _ & _). split; [|done].
  rewrite list_fmap_insert. apply list_insert_id.
  by rewrite list_lookup_fmap, Hi.
Qed.

Lemma product_delete_sublist product_id self :
  product_service._products (product_service.delete_product product_id self).1
    `sublist_of` product_service._products self ∧
  product_service._next_id (product_service.delete_product product_id self).1
  = product_service._next_id self.
Proof.
  unfold product_service.delete_product.
  destruct (list_find _ _) as [[i product]|]; simpl; [|done].
  split; [apply sublist_delete | done].
Qed.

(** Product ids stay below the counter whatever is run. *)
Lemma product_reachable_ids self :
  product_service.reachable self →
  Forall (λ i, 1 ≤ i < product_service._next_id self)
    (p_id <$> product_service._products self) ∧
  1 ≤ product_service._next_id self.
Proof.
  induction 1 as [t1 t2 t3 self Hinit | o self Hr [IHb IHn]].
  { vm_compute in Hinit. injection Hinit as <-. simpl.
    split; [repeat constructor; lia | lia]. }
  destruct o as [now pc | now product_id upd | product_id]; simpl.
  - destruct (create_product_cases now pc self)
      as [[_ ->] | (_ & product & -> & Hid & _)]; [done|].
    simpl. rewrite fmap_app. simpl. rewrite Hid. split; [|lia].
    apply Forall_app. split.
    + eapply Forall_impl; [exact IHb|]. simpl. intros; lia.
    + apply Forall_singleton. lia.
  - destruct (product_update_ids now product_id upd self) as [-> ->]. done.
  - destruct (product_delete_sublist product_id self) as [Hsub ->].
    split; [|done]. eapply Forall_sublist_of; [|exact IHb].
    by apply fmap_sublist.
Qed.

(** The two optional filters of [get_products] are one filter. *)
Lemma get_products_filtered (self : product_service.ProductService)
    (skip limit : Z) (category : option ProductCategory) (in_stock : option bool) :
  product_service.get_products self skip limit category in_stock
    = py_slice
        (filter (product_service.wanted category in_stock)
           (product_service._products self))
        skip (skip + limit).
Proof.
  unfold product_service.get_products. f_equal.
  destruct category as [c|], in_stock as [b|].
  - rewrite list_filter_filter. apply list_filter_iff.
    intros p. unfold product_service.wanted. simpl. tauto.
  - apply list_filter_iff. intros p. unfold product_service.wanted. simpl. tauto.
  - apply list_filter_iff. intros p. unfold product_service.wanted. simpl. tauto.
  - symmetry. apply filter_all, Forall_forall. intros p _. by split.
Qed.

(** X15. [get_products] filters, then pages: for [skip >= 0] and
    [limit >= 0] the answer is exactly the first [limit] elements, after
    the first [skip], of the stored products that are of the requested
    category and stock status (when these are given), in store order.
    Hence it is a sub-sequence of the stored products of at most [limit]
    elements that all pass the filters; and with [skip = 0] and [limit]
    at least the number of products, every stored product that passes
    the filters is in the answer. *)
Theorem get_products_filters_then_pages (self : product_service.ProductService)
    (skip limit : Z) (category : option ProductCategory) (in_stock : option bool) :
  0 ≤ skip → 0 ≤ limit →
  let page := product_service.get_products self skip limit category in_stock in
  let passes := product_service.wanted category in_stock in
  page = take (Z.to_nat limit)
           (drop (Z.to_nat skip) (filter passes (product_service._products self))) ∧
  page `sublist_of` product_service._products self ∧
  Z.of_nat (length page) ≤ limit ∧
  Forall passes page ∧
  (skip = 0 → Z.of_nat (length (product_service._products self)) ≤ limit →
   ∀ p, p ∈ product_service._products self → passes p → p ∈ page).
Proof.
  intros Hskip Hlimit page passes.
  assert (page = take (Z.to_nat limit)
                   (drop (Z.to_nat skip)
                      (filter passes (product_service._products self)))) as Hpage.
  { unfold page. rewrite get_products_filtered. by apply py_slice_window. }
  split; [exact Hpage|]. rewrite Hpage.
  set (l := product_service._products self).
  assert (take (Z.to_nat limit) (drop (Z.to_nat skip) (filter passes l))
            `sublist_of` filter passes l) as Hsub.
  { etrans; [apply sublist_take | apply sublist_drop]. }
  split; [etrans; [exact Hsub | apply sublist_filter]|].
  split; [rewrite length_take; lia|]. split.
  - apply Forall_forall. intros p Hp.
    apply (elem_of_sublist _ _ _ Hp) in Hsub.
    by apply list_elem_of_filter in Hsub as [? _].
  - intros -> Hall p Hp Hpass. simpl. rewrite drop_0, take_ge.
    + by apply list_elem_of_filter.
    + pose proof (length_filter passes l). lia.
Qed.

(** Witness of X15: the first sports product of the sample store, which
    is the second product stored. *)
Lemma get_products_filters_then_pages_witness :
  let page :=
    product_service.get_products product_service.fresh 0 1 (Some SPORTS) None in
  (p_name <$> page) = [Some "Nike Air Max"] ∧
  page = take 1 (drop 0 (filter (product_service.wanted (Some SPORTS) None)
                           (product_service._products product_service.fresh))) ∧
  Z.of_nat (length page) ≤ 1.
Proof.
  intros page. split; [vm_compute; reflexivity|].
  destruct (get_products_filters_then_pages product_service.fresh 0 1
              (Some SPORTS) None) as (Hpage & _ & Hlen & _); [lia..|].
  split; [exact Hpage | exact Hlen].
Defined.

(** X16. What [create_product] stores can be read back, and names need not
    be unique: in a reachable product store, for every request whose
    price is not below zero, [create_product] succeeds, appends the
    product under the counter's id, greater than every stored id, and
    [get_product_by_id] returns that product for the id. *)
Theorem create_product_then_get (self : product_service.ProductService)
    (now : datetime) (pc : ProductCreate) :
  product_service.reachable self →
  PrimFloat.ltb (pc_price pc) PrimFloat.zero = false →
  ∃ self' product,
    product_service.create_product now pc self = (self', Ok product) ∧
    product_service._products self' = product_service._products self ++ [product] ∧
    p_id product = product_service._next_id self ∧
    p_name product = Some (pc_name pc) ∧
    (∀ q, q ∈ product_service._products self → p_id q < p_id product) ∧
    product_service.get_product_by_id self' (p_id product) = Some product.
Proof.
  intros Hr Hprice. apply product_reachable_ids in Hr as [Hb _].
  destruct (create_product_cases now pc self)
    as [[Hneg _] | (_ & product & Hcreate & Hid & Hname & _)]; [congruence|].
  assert (∀ q, q ∈ product_service._products self → p_id q < p_id product) as Hlt.
  { intros q Hq. rewrite Forall_forall in Hb.
    specialize (Hb (p_id q) (list_elem_of_fmap_2 _ _ _ Hq)). lia. }
  eexists _, product. split; [exact Hcreate|]. simpl.
  split; [done|]. split; [done|]. split; [done|]. split; [done|].
  unfold product_service.get_product_by_id. simpl.
  rewrite list_find_app_r.
  - simpl. by rewrite decide_True.
  - apply list_find_None, Forall_forall. intros q Hq Heq.
    specialize (Hlt q Hq). lia.
Qed.

(** Witness of X16: a second "MacBook Pro" on the sample store. *)
Lemma create_product_then_get_witness :
  ∃ self' product,
    product_service.create_product 9
      (mkProductCreate "MacBook Pro" None 1%float ELECTRONICS true 1)
      product_service.fresh = (self', Ok product) ∧
    p_id product = 4 ∧
    product_service.get_product_by_id self' 4 = Some product.
Proof.
  destruct (create_product_then_get product_service.fresh 9
              (mkProductCreate "MacBook Pro" None 1%float ELECTRONICS true 1))
    as (self' & product & Hcreate & _ & Hid & _ & _ & Hget).
  - by apply (product_service.reachable_init 0 0 0).
  - vm_compute. reflexivity.
  - exists self', product. split; [exact Hcreate|].
    split; [exact Hid|]. by rewrite Hid in Hget.
Defined.

(** ** Updating and searching products *)

Lemma lower_char_idempotent (c : Ascii.ascii) :
  lower_char (lower_char c) = lower_char c.
Proof. destruct c as [[] [] [] [] [] [] [] []]; reflexivity. Qed.

Lemma lower_idempotent (s : string) : lower (lower s) = lower s.
Proof.
  induction s as [|c s IH]; [done|]. simpl.
  by rewrite lower_char_idempotent, IH.
Qed.

Lemma contains_empty (s : string) : contains "" s = true.
Proof. by destruct s. Qed.

Lemma search_in_None (query : string) (products : list Product) :
  product_service.search_in query products = None ↔
  ∃ p, p ∈ products ∧ p_name p = None.
Proof.
  induction products as [|p l IH]; simpl.
  - split; [done|]. intros (p & Hp & _). by apply elem_of_nil in Hp.
  - unfold product_service.matches at 1.
    destruct (p_name p) as [name|] eqn:Hname.
    + destruct (product_service.search_in query l) as [found|].
      * split; [done|]. intros (q & Hq & Hnone).
        apply elem_of_cons in Hq as [->|Hq]; [congruence|].
        assert (Some found = None) as Habs; [|done].
        apply IH. by exists q.
      * split; [|done]. intros _.
        destruct (proj1 IH eq_refl) as (q & Hq & Hnone).
        exists q. split; [by apply list_elem_of_further | done].
    + split; [|done]. intros _. exists p. split; [apply list_elem_of_here | done].
Qed.

Lemma search_in_Some (query : string) (products : list Product)
    (found : list Product) :
  product_service.search_in query products = Some found →
  found = filter (λ p, product_service.matches query p = Some true) products.
Proof.
  revert found. induction products as [|p l IH]; intros found; simpl.
  - by intros [= <-].
  - destruct (product_service.matches query p) as [hit|] eqn:Hhit; [|done].
    destruct (product_service.search_in query l) as [found'|]; [|done].
    intros [= <-]. rewrite (IH found' eq_refl).
    destruct hit.
    + by rewrite filter_cons_True.
    + rewrite filter_cons_False; [done|]. rewrite Hhit. discriminate.
Qed.

(** X17. Updates are not validated: a price below zero, which a
    [ProductCreate] refuses, is stored by [update_product] for any product
    that exists, returned, and read back by [get_product_by_id]. *)
Theorem update_product_skips_validation (now : datetime) (product_id : Z)
    (upd : ProductUpdate) (self : product_service.ProductService)
    (price : PrimFloat.float) :
  (∃ p, p ∈ product_service._products self ∧ p_id p = product_id) →
  pu_price upd = Given (Some price) →
  PrimFloat.ltb price PrimFloat.zero = true →
  (∀ name description category in_stock stock_quantity,
     ProductCreate_new name description price category in_stock stock_quantity
       = Raise (ValidationError "price")) ∧
  ∃ self' updated,
    product_service.update_product now product_id upd self
      = (self', Some updated) ∧
    p_id updated = product_id ∧
    p_price updated = Some price ∧
    product_service.get_product_by_id self' product_id = Some updated.
Proof.
  intros (p & Hp & Hid) Hprice Hneg. split.
  { intros. unfold ProductCreate_new, validate_price. by rewrite Hneg. }
  destruct (list_find_elem_of (λ product, p_id product = product_id)
              (product_service._products self) p Hp Hid) as [[i x] Hf].
  unfold product_service.update_product, product_service.get_product_by_id.
  rewrite Hf. simpl.
  apply list_find_Some in Hf as Hf'. destruct Hf' as (_ & Hx & _).
  eexists _, _. split; [reflexivity|]. simpl.
  split; [done|]. split; [by rewrite Hprice|].
  by rewrite (list_find_insert_same _ _ i x
                (product_service.copy_update x upd now) Hf Hx).
Qed.

(** Witness of X17: the book of the sample store priced at -5. *)
Lemma update_product_skips_validation_witness :
  let upd := mkProductUpdate Unset Unset (Given (Some (-5)%float)) Unset Unset Unset in
  ProductCreate_new "Book" None (-5)%float BOOKS true 1
    = Raise (ValidationError "price") ∧
  ∃ self' updated,
    product_service.update_product 9 3 upd product_service.fresh
      = (self', Some updated) ∧
    p_id updated = 3 ∧
    p_price updated = Some (-5)%float ∧
    product_service.get_product_by_id self' 3 = Some updated.
Proof.
  intros upd.
  destruct (update_product_skips_validation 9 3 upd product_service.fresh
              (-5)%float) as [Hcreate Hupdate].
  - eexists.
    split; [eapply (list_elem_of_lookup_2 _ 2%nat); reflexivity | reflexivity].
  - reflexivity.
  - vm_compute. reflexivity.
  - split; [apply Hcreate | exact Hupdate].
Defined.

(** X18. What [search_products] finds: it raises exactly when some stored
    product has no name; otherwise it returns, in store order, the
    products whose lower-cased name, or lower-cased non-empty description,
    contains the lower-cased query, so the case of the query does not
    matter and the empty query returns every product. *)
Theorem search_products_finds (self : product_service.ProductService)
    (query : string) :
  (product_service.search_products self query = None ↔
     ∃ p, p ∈ product_service._products self ∧ p_name p = None) ∧
  (∀ found, product_service.search_products self query = Some found →
     found `sublist_of` product_service._products self ∧
     ∀ p name,
       p ∈ product_service._products self → p_name p = Some name →
       (p ∈ found ↔
          contains (lower query) (lower name) = true ∨
          ∃ description,
            p_description p = Some description ∧ description ≠ "" ∧
            contains (lower query) (lower description) = true)) ∧
  product_service.search_products self (lower query)
    = product_service.search_products self query ∧
  ((∀ p, p ∈ product_service._products self → is_Some (p_name p)) →
     product_service.search_products self ""
       = Some (product_service._products self)).
Proof.
  unfold product_service.search_products.
  split; [apply search_in_None|]. split; [|split].
  - intros found Hfound. apply search_in_Some in Hfound as ->.
    split; [apply sublist_filter|].
    intros p name Hp Hname. rewrite list_elem_of_filter.
    unfold product_service.matches. rewrite Hname.
    destruct (contains (lower query) (lower name)); simpl.
    { split; [by left | by intros _]. }
    destruct (p_description p) as [d|]; simpl.
    + destruct (decide (d = "")) as [->|Hd].
      * rewrite bool_decide_true by done. simpl.
        split; [by intros [? _] | intros [?|(d & [= <-] & Hd & _)]; done].
      * rewrite bool_decide_false by done. simpl.
        destruct (contains (lower query) (lower d)) eqn:Hc.
        -- split; [|done]. intros _. right. by exists d.
        -- split; [by intros [? _]|].
           intros [?|(d' & [= <-] & _ & Hc')]; [done | congruence].
    + split; [by intros [? _] | intros [?|(d & ? & _)]; done].
  - by rewrite lower_idempotent.
  - intros Hnames. simpl.
    induction (product_service._products self) as [|p l IH]; [done|]. simpl.
    destruct (Hnames p (list_elem_of_here _ _)) as [name Hname].
    unfold product_service.matches at 1. rewrite Hname.
    rewrite IH by (intros q Hq; apply Hnames; by apply list_elem_of_further).
    by rewrite contains_empty.
Qed.

(** Witness of X18: "PYTHON" finds the book of the sample store. *)
Lemma search_products_finds_witness :
  ∃ found,
    product_service.search_products product_service.fresh "PYTHON" = Some found ∧
    (p_name <$> found) = [Some "Python Programming Book"] ∧
    found `sublist_of` product_service._products product_service.fresh.
Proof.
  eexists. split; [vm_compute; reflexivity|].
  split; [vm_compute; reflexivity|].
  apply (proj1 (proj2 (search_products_finds product_service.fresh "PYTHON"))).
  vm_compute. reflexivity.
Defined.

(** A product without a name stays so under every operation that
    neither deletes it nor names it. *)
Lemma run_keeps_null_name (product_id : Z) (o : product_service.operation)
    (self : product_service.ProductService) :
  product_service.keeps_null_name product_id o = true →
  (∃ p, p ∈ product_service._products self ∧ p_id p = product_id ∧ p_name p = None) →
  ∃ p, p ∈ product_service._products (product_service.run o self) ∧
       p_id p = product_id ∧ p_name p = None.
Proof.
  intros Hkeeps (p & Hp & Hid & Hname).
  destruct o as [now pc | now id upd | id]; simpl in *.
  - exists p. split; [|done]. unfold product_service.create_product.
    destruct (validate_price _); simpl; [|done].
    apply elem_of_app. by left.
  - unfold product_service.update_product.
    destruct (list_find _ _) as [[i x]|] eqn:Hf; simpl; [|by exists p].
    apply list_find_Some in Hf as (Hi & Hx & _).
    apply list_elem_of_lookup_1 in Hp as [j Hj].
    destruct (decide (j = i)) as [->|Hne].
    + rewrite Hi in Hj. injection Hj as ->.
      exists (product_service.copy_update p upd now). split.
      * apply list_elem_of_insert. by eapply lookup_lt_Some.
      * split; [done|]. simpl. rewrite Hname.
        rewrite bool_decide_true in Hkeeps by congruence. simpl in Hkeeps.
        by destruct (pu_name upd) as [|[name|]].
    + exists p. split; [|done].
      apply (list_elem_of_lookup_2 _ j). by rewrite list_lookup_insert_ne.
  - unfold product_service.delete_product.
    destruct (list_find _ _) as [[i x]|] eqn:Hf; simpl; [|by exists p].
    apply list_find_Some in Hf as (Hi & Hx & _).
    apply negb_true_iff, bool_decide_eq_false in Hkeeps.
    apply list_elem_of_lookup_1 in Hp as [j Hj].
    assert (j ≠ i) as Hne.
    { intros ->. rewrite Hi in Hj. injection Hj as ->. congruence. }
    exists p. split; [|done].
    destruct (decide (j < i)%nat) as [Hlt|Hge].
    + apply (list_elem_of_lookup_2 _ j). by rewrite list_lookup_delete_lt.
    + apply (list_elem_of_lookup_2 _ (pred j)).
      rewrite list_lookup_delete_ge by lia.
      replace (S (pred j)) with j by lia. done.
Qed.

Lemma run_all_keeps_null_name (product_id : Z)
    (ops : list product_service.operation) (self : product_service.ProductService) :
  Forall (λ o, product_service.keeps_null_name product_id o = true) ops →
  (∃ p, p ∈ product_service._products self ∧ p_id p = product_id ∧ p_name p = None) →
  ∃ p, p ∈ product_service._products (product_service.run_all ops self) ∧
       p_id p = product_id ∧ p_name p = None.
Proof.
  intros Hops. revert self.
  induction Hops as [|o ops Ho _ IH]; intros self Hnull; [done|].
  unfold product_service.run_all in *. simpl. apply IH.
  by apply run_keeps_null_name.
Qed.

(** X19. A stored null breaks the search: when a product has the id and
    the request supplies an explicit null for [name], [update_product]
    stores it and answers with the record, and [search_products] raises
    for every query, on the store the update leaves and on every store
    reached from it by operations none of which deletes that product or
    updates it with a name. *)
Theorem null_name_breaks_search (now : datetime) (product_id : Z)
    (upd : ProductUpdate) (self : product_service.ProductService) :
  (∃ p, p ∈ product_service._products self ∧ p_id p = product_id) →
  pu_name upd = Given None →
  ∃ self' updated,
    product_service.update_product now product_id upd self
      = (self', Some updated) ∧
    p_name updated = None ∧
    (∀ query, product_service.search_products self' query = None) ∧
    (∀ ops,
       Forall (λ o, product_service.keeps_null_name product_id o = true) ops →
       ∀ query,
         product_service.search_products (product_service.run_all ops self') query
           = None).
Proof.
  intros (p & Hp & Hid) Hnull.
  destruct (list_find_elem_of (λ product, p_id product = product_id)
              (product_service._products self) p Hp Hid) as [[i x] Hf].
  unfold product_service.update_product. rewrite Hf.
  apply list_find_Some in Hf as (Hi & Hx & _).
  eexists _, _. split; [reflexivity|]. simpl. rewrite Hnull. simpl.
  split; [done|].
  assert (∀ ops,
            Forall (λ o, product_service.keeps_null_name product_id o = true) ops →
            ∀ query,
              product_service.search_products
                (product_service.run_all ops
                   (product_service.mkProductService
                      (<[i:=product_service.copy_update x upd now]>
                         (product_service._products self))
                      (product_service._next_id self))) query = None) as Hlater.
  { intros ops Hops query.
    unfold product_service.search_products. apply search_in_None.
    destruct (run_all_keeps_null_name product_id ops
                (product_service.mkProductService
                   (<[i:=product_service.copy_update x upd now]>
                      (product_service._products self))
                   (product_service._next_id self)) Hops)
      as (q & Hq & _ & Hqname).
    - exists (product_service.copy_update x upd now). split.
      + simpl. apply list_elem_of_insert. by eapply lookup_lt_Some.
      + split; [done|]. simpl. by rewrite Hnull.
    - by exists q. }
  split; [|exact Hlater].
  intros query. apply (Hlater []). constructor.
Qed.

(** Witness of X19: the name of sample product 1 set to null, then a
    deletion and two updates that leave it so. *)
Lemma null_name_breaks_search_witness :
  let upd := mkProductUpdate (Given None) Unset Unset Unset Unset Unset in
  let later :=
    [product_service.Delete 2;
     product_service.Update 10 1
       (mkProductUpdate Unset Unset (Given (Some 5%float)) Unset Unset Unset);
     product_service.Update 11 3
       (mkProductUpdate (Given (Some "Book")) Unset Unset Unset Unset Unset)] in
  ∃ self' updated,
    product_service.update_product 9 1 upd product_service.fresh
      = (self', Some updated) ∧
    p_name updated = None ∧
    (∀ query, product_service.search_products self' query = None) ∧
    (∀ query,
       product_service.search_products (product_service.run_all later self') query
         = None).
Proof.
  intros upd later.
  destruct (null_name_breaks_search 9 1 upd product_service.fresh)
    as (self' & updated & Hupdate & Hname & Hnow & Hlater).
  - eexists.
    split; [eapply (list_elem_of_lookup_2 _ 0%nat); reflexivity | reflexivity].
  - reflexivity.
  - exists self', updated. split; [exact Hupdate|]. split; [exact Hname|].
    split; [exact Hnow|]. apply Hlater. repeat constructor.
Defined.

(** X20. Product writes are for active admins only: for a principal that
    is inactive or not an admin, the POST, PUT and DELETE handlers of the
    products leave the product store as it was and raise 400 or 403,
    whatever the request. *)
Theorem product_writes_need_admin (principal : User)
    (self : product_service.ProductService) :
  User_is_active principal = false ∨ User_role principal ≠ ADMIN →
  ∃ e,
    (e = HTTPException 400 "Inactive user"
     ∨ e = HTTPException 403 "Not enough permissions") ∧
    (∀ now pc, products.create_product now pc principal self = (self, Raise e)) ∧
    (∀ now product_id upd,
       products.update_product now product_id upd principal self
         = (self, Raise e)) ∧
    (∀ product_id,
       products.delete_product product_id principal self = (self, Raise e)).
Proof.
  intros Hnot.
  assert (∃ e, (e = HTTPException 400 "Inactive user"
                ∨ e = HTTPException 403 "Not enough permissions") ∧
               products.admin_principal principal = Raise e) as (e & He & Hguard).
  { unfold products.admin_principal, auth.get_current_active_user,
      products.get_admin_user.
    destruct (User_is_active principal) eqn:Hactive; simpl.
    - destruct Hnot as [?|Hrole]; [done|].
      rewrite decide_True by done. eexists. split; [by right | done].
    - eexists. split; [by left | done]. }
  exists e. split; [exact He|].
  unfold products.create_product, products.update_product,
    products.delete_product. rewrite Hguard. done.
Qed.

(** Witness of X20: john_doe, a plain user, against the sample store. *)
Lemma product_writes_need_admin_witness :
  let john := mkUser 2 "john_doe" "john@example.com" (Some "John Doe") USER true 0 None in
  ∃ e,
    (e = HTTPException 400 "Inactive user"
     ∨ e = HTTPException 403 "Not enough permissions") ∧
    (∀ now pc, products.create_product now pc john product_service.fresh
                 = (product_service.fresh, Raise e)) ∧
    (∀ now product_id upd,
       products.update_product now product_id upd john product_service.fresh
         = (product_service.fresh, Raise e)) ∧
    (∀ product_id,
       products.delete_product product_id john product_service.fresh
         = (product_service.fresh, Raise e)).
Proof.
  intros john. apply (product_writes_need_admin john product_service.fresh).
  right. simpl. discriminate.
Defined.

(** * Properties of file validation *)

Lemma string_take_drop (n : nat) (s : string) :
  string_take n s +:+ string_drop n s = s.
Proof.
  revert s. induction n as [|n IH]; intros [|a s]; try done.
  change (String a (string_take n s +:+ string_drop n s) = String a s).
  by rewrite IH.
Qed.

Lemma rfind_range (c : Ascii.ascii) (s : string) :
  -1 ≤ rfind c s < Z.of_nat (String.length s).
Proof.
  induction s as [|a s IH]; simpl; [lia|].
  destruct (Z.leb_spec 0 (rfind c s)); [lia|].
  destruct (decide (a = c)); lia.
Qed.

Lemma rfind_neg (c : Ascii.ascii) (s : string) :
  rfind c s < 0 → has_char c s = false.
Proof.
  induction s as [|a s IH]; simpl; [done|].
  destruct (Z.leb_spec 0 (rfind c s)); [lia|].
  destruct (decide (a = c)); [lia|]. intros _.
  rewrite bool_decide_false by done. simpl. apply IH. lia.
Qed.

Lemma rfind_drop (c : Ascii.ascii) (s : string) :
  0 ≤ rfind c s →
  ∃ t, string_drop (Z.to_nat (rfind c s)) s = String c t ∧ has_char c t = false.
Proof.
  induction s as [|a s IH]; simpl; [lia|].
  destruct (Z.leb_spec 0 (rfind c s)) as [Hr|Hr].
  - intros _. destruct (IH Hr) as (t & Ht & Hnone). exists t.
    replace (Z.to_nat (1 + rfind c s)) with (S (Z.to_nat (rfind c s))) by lia.
    done.
  - destruct (decide (a = c)) as [->|]; [|lia]. intros _.
    exists s. split; [done|]. by apply rfind_neg.
Qed.

Lemma has_char_drop_after (c : Ascii.ascii) (s : string) (n : nat) :
  rfind c s < Z.of_nat n → has_char c (string_drop n s) = false.
Proof.
  revert n. induction s as [|a s IH]; intros n; simpl.
  - by destruct n.
  - destruct (Z.leb_spec 0 (rfind c s)) as [Hr|Hr]; intros Hlt.
    + destruct n as [|n]; [lia|]. simpl. apply IH. lia.
    + destruct n as [|n]; simpl.
      * destruct (decide (a = c)); [lia|].
        rewrite bool_decide_false by done. simpl. by apply rfind_neg.
      * apply IH. lia.
Qed.

Lemma has_char_drop (c : Ascii.ascii) (s : string) (n : nat) :
  has_char c s = false → has_char c (string_drop n s) = false.
Proof.
  revert n. induction s as [|a s IH]; intros n Hnone; [by destruct n|].
  destruct n as [|n]; [done|]. simpl in *.
  apply orb_false_iff in Hnone as [_ Hnone]. by apply IH.
Qed.

Lemma rfind_absent (c : Ascii.ascii) (s : string) :
  has_char c s = false → rfind c s < 0.
Proof.
  intros Hnone. pose proof (rfind_range c s).
  destruct (decide (0 ≤ rfind c s)) as [Hr|]; [|lia].
  destruct (rfind_drop c s Hr) as (t & Ht & _).
  pose proof (has_char_drop c s (Z.to_nat (rfind c s)) Hnone) as Habs.
  rewrite Ht in Habs. simpl in Habs. by rewrite bool_decide_true in Habs.
Qed.

Lemma splitext_cases (p : string) :
  splitext p = (p, "") ∨
  (rfind sep p < rfind extsep p ∧ 0 < rfind extsep p ∧
   splitext p = (string_take (Z.to_nat (rfind extsep p)) p,
                 string_drop (Z.to_nat (rfind extsep p)) p)).
Proof.
  unfold splitext.
  destruct (Z.ltb_spec (rfind sep p) (rfind extsep p)) as [Hlt|]; [|by left].
  destruct (all_dots _) eqn:Hdots; [by left|]. right.
  split; [done|]. split; [|done].
  pose proof (rfind_range sep p).
  destruct (decide (rfind extsep p - (rfind sep p + 1) ≤ 0)) as [Hle|]; [|lia].
  replace (Z.to_nat (rfind extsep p - (rfind sep p + 1))) with 0%nat in Hdots
    by lia.
  by destruct (string_drop _ p).
Qed.

Lemma append_empty_r (s : string) : s +:+ "" = s.
Proof.
  induction s as [|a s IH]; [done|].
  change (String a (s +:+ "") = String a s). by rewrite IH.
Qed.

(** X21. [splitext] cuts a path in two without losing anything: root and
    extension concatenate to the path; the extension is empty or is one
    dot followed by characters that are neither dots nor slashes; a path
    without a dot has no extension, and neither has a dot-file such as
    [.txt]. *)
Theorem splitext_parts (p : string) :
  (splitext p).1 +:+ (splitext p).2 = p ∧
  ((splitext p).2 = "" ∨
   ∃ e, (splitext p).2 = String extsep e ∧
        has_char extsep e = false ∧ has_char sep e = false) ∧
  (has_char extsep p = false → splitext p = (p, "")) ∧
  (∀ s, p = String extsep s → has_char extsep s = false →
        has_char sep s = false → splitext p = (p, "")).
Proof.
  split; [|split; [|split]].
  - destruct (splitext_cases p) as [->|(_ & _ & ->)]; simpl.
    + apply append_empty_r.
    + apply string_take_drop.
  - destruct (splitext_cases p) as [->|(Hsep & Hdot & ->)]; [by left|].
    right. simpl.
    destruct (rfind_drop extsep p) as (t & Ht & Hnone); [lia|].
    exists t. split; [done|]. split; [done|].
    pose proof (has_char_drop_after sep p (Z.to_nat (rfind extsep p))) as Hs.
    rewrite Ht in Hs. simpl in Hs. apply Hs. lia.
  - intros Hnone. apply rfind_absent in Hnone.
    destruct (splitext_cases p) as [->|(_ & Hdot & _)]; [done | lia].
  - intros s -> Hnodot Hnosep.
    apply rfind_absent in Hnodot, Hnosep.
    assert (rfind extsep (String extsep s) = 0) as Hd.
    { simpl. destruct (Z.leb_spec 0 (rfind extsep s)); [lia|].
      by destruct (decide (extsep = extsep)). }
    assert (rfind sep (String extsep s) = -1) as Hs.
    { simpl. destruct (Z.leb_spec 0 (rfind sep s)); [lia|].
      by destruct (decide (extsep = sep)). }
    unfold splitext. rewrite Hd, Hs. reflexivity.
Qed.

(** Witness of X21: a path without a dot, and the dot-file [.txt]. *)
Lemma splitext_parts_witness :
  splitext "uploads/readme" = ("uploads/readme", "") ∧
  splitext ".txt" = (".txt", "") ∧
  splitext "archive.tar.GZ" = ("archive.tar", ".GZ").
Proof.
  split; [|split].
  - apply (proj1 (proj2 (proj2 (splitext_parts "uploads/readme")))).
    reflexivity.
  - apply (proj2 (proj2 (proj2 (splitext_parts ".txt"))) "txt");
      reflexivity.
  - reflexivity.
Defined.

Lemma empty_extension_not_allowed : "" ∉ files.ALLOWED_EXTENSIONS.
Proof.
  destruct (decide ("" ∈ files.ALLOWED_EXTENSIONS)) as [Hin|Hnot] eqn:Hd;
    [|done].
  vm_compute in Hd. discriminate.
Qed.

(** X22. What [validate_file] lets through: every refusal is a 400; an
    accepted file has a name [root + ext] with a non-empty root and an
    extension that is, up to case, one of the eight allowed ones and holds
    no slash; a name without a dot is refused; and acceptance does not
    depend on the order in which the allowed extensions are listed in the
    refusal message. *)
Theorem validate_file_accepts (order : list string) (file : files.UploadFile) :
  (∀ e, files.validate_file order file = Raise e →
        ∃ detail, e = HTTPException 400 detail) ∧
  (files.validate_file order file = Ok tt →
     ∃ root ext,
       files.filename file = Some (root +:+ ext) ∧ root ≠ "" ∧
       lower ext ∈ files.ALLOWED_EXTENSIONS ∧ has_char sep ext = false) ∧
  (∀ name, files.filename file = Some name → has_char extsep name = false →
           ∃ e, files.validate_file order file = Raise e) ∧
  (∀ order', files.validate_file order' file = Ok tt →
             files.validate_file order file = Ok tt).
Proof.
  unfold files.validate_file.
  destruct (files.filename file) as [[|a name]|] eqn:Hname.
  - split; [intros e [= <-]; by eexists|]. split; [done|].
    split; [|done]. intros; by eexists.
  - set (p := String a name) in *.
    destruct (decide (lower (splitext p).2 ∈ files.ALLOWED_EXTENSIONS))
      as [Hin|Hnot].
    + split; [done|]. split; [|split; [|done]].
      * intros _.
        destruct (splitext_cases p) as [Heq|(Hsep & Hdot & Heq)];
          rewrite Heq in Hin; simpl in Hin.
        { by destruct empty_extension_not_allowed. }
        exists (string_take (Z.to_nat (rfind extsep p)) p),
               (string_drop (Z.to_nat (rfind extsep p)) p).
        split; [by rewrite string_take_drop|]. split; [|split; [done|]].
        -- subst p.
           destruct (Z.to_nat (rfind extsep (String a name))) eqn:Hn;
             [lia | done].
        -- apply has_char_drop_after. lia.
      * intros name' [= <-] Hnodot.
        apply rfind_absent in Hnodot.
        destruct (splitext_cases p) as [Heq|(_ & Hdot & _)]; [|lia].
        rewrite Heq in Hin. simpl in Hin.
        by destruct empty_extension_not_allowed.
    + split; [intros e [= <-]; by eexists|]. split; [done|].
      split; [|done]. intros; by eexists.
  - split; [intros e [= <-]; by eexists|]. split; [done|].
    split; [|done]. intros; by eexists.
Qed.

(** Witness of X22: [photo.JPG] is accepted, [notes] is refused. *)
Lemma validate_file_accepts_witness :
  let order := [".jpg"; ".jpeg"; ".png"; ".gif"; ".pdf"; ".txt"; ".docx"; ".xlsx"] in
  let photo := files.mkUploadFile (Some "photo.JPG") (Some "image/jpeg") [] in
  let notes := files.mkUploadFile (Some "notes") None [] in
  (∃ root ext,
     files.filename photo = Some (root +:+ ext) ∧ root ≠ "" ∧
     lower ext ∈ files.ALLOWED_EXTENSIONS ∧ has_char sep ext = false) ∧
  ∃ e, files.validate_file order notes = Raise e.
Proof.
  intros order photo notes. split.
  - apply (proj1 (proj2 (validate_file_accepts order photo))).
    vm_compute. reflexivity.
  - apply (proj1 (proj2 (proj2 (validate_file_accepts order notes))) "notes");
      reflexivity.
Defined.

(** ** The upload handlers *)

Lemma validate_file_Ok_name (order : list string) (file : files.UploadFile) u :
  files.validate_file order file = Ok u →
  ∃ a name, files.filename file = Some (String a name).
Proof.
  unfold files.validate_file.
  destruct (files.filename file) as [[|a name]|]; [done| |done].
  intros _. by eexists _, _.
Qed.

Lemma upload_one_spec (order : list string) (uuid : string) (now : datetime)
    (file : files.UploadFile) (disk : gmap string (list Ascii.ascii)) :
  let accepted :=
    files.validate_file order file = Ok tt ∧
    Z.of_nat (length (files.content file)) ≤ files.MAX_FILE_SIZE in
  (is_Some (files.ur_file_url (files.upload_one order uuid now file disk).2)
     ↔ accepted) ∧
  (accepted →
     files.upload_one order uuid now file disk = files.save uuid now file disk) ∧
  (¬ accepted → (files.upload_one order uuid now file disk).1 = disk) ∧
  dom disk ⊆ dom (files.upload_one order uuid now file disk).1.
Proof.
  intros accepted. subst accepted. unfold files.upload_one.
  destruct (files.validate_file order file) as [[]|e] eqn:Hv; simpl.
  - destruct (Z.ltb_spec files.MAX_FILE_SIZE
                (Z.of_nat (length (files.content file)))) as [Hbig|Hok]; simpl.
    + split; [|split; [|split]].
      * split; [by intros [? ?] | intros [_ ?]; lia].
      * intros [_ ?]. lia.
      * done.
      * done.
    + split; [|split; [|split]].
      * split; [done | by eexists].
      * done.
      * intros Hnot. by destruct Hnot.
      * unfold files.store. apply dom_insert_subseteq.
  - split; [|split; [|split]].
    + split; [by intros [? ?] | by intros [? _]].
    + by intros [? _].
    + done.
    + done.
Qed.

Lemma upload_each_spec (order : list string)
    (inputs : list (files.UploadFile * (string * datetime)))
    (disk : gmap string (list Ascii.ascii)) :
  length (files.upload_each order inputs disk).2 = length inputs ∧
  Forall2
    (λ input response,
       is_Some (files.ur_file_url response) ↔
       files.validate_file order input.1 = Ok tt ∧
       Z.of_nat (length (files.content input.1)) ≤ files.MAX_FILE_SIZE)
    inputs (files.upload_each order inputs disk).2 ∧
  dom disk ⊆ dom (files.upload_each order inputs disk).1 ∧
  (Forall
     (λ input,
        ¬ (files.validate_file order input.1 = Ok tt ∧
           Z.of_nat (length (files.content input.1)) ≤ files.MAX_FILE_SIZE))
     inputs →
   (files.upload_each order inputs disk).1 = disk).
Proof.
  revert disk. induction inputs as [|[file [uuid now]] rest IH]; intros disk.
  { simpl. split; [done|]. split; [constructor|]. done. }
  simpl.
  destruct (upload_one_spec order uuid now file disk)
    as (Hurl & _ & Hkept & Hdom).
  destruct (files.upload_one order uuid now file disk) as [disk1 response].
  destruct (IH disk1) as (Hlen & Hall & Hdom' & Hnone).
  destruct (files.upload_each order rest disk1) as [disk2 responses].
  simpl in *. split; [by rewrite Hlen|]. split; [by constructor|].
  split; [by etrans|].
  intros Hrefused. apply Forall_cons in Hrefused as [Hfile Hrest].
  rewrite (Hnone Hrest). by apply Hkept.
Qed.

(** X23. [upload_file] writes one file or none: whenever it raises, the
    upload directory is as it was; whenever it answers, the principal is
    active, the content has at most 10 MiB, exactly the path
    [uploads/<uuid><extension>] has been written with the uploaded
    content, the URL is [/files/<uuid><extension>], the extension is the
    one of the name as it was sent, and the reported size is the length
    of the content; and an active principal sending a valid file of at
    most 10 MiB is answered. *)
Theorem upload_file_outcomes (uuid : string) (now : datetime)
    (order : list string) (file : files.UploadFile) (principal : User)
    (disk : gmap string (list Ascii.ascii)) :
  let outcome := files.upload_file uuid now order file principal disk in
  (∀ e, outcome.2 = Raise e → outcome.1 = disk) ∧
  (∀ response, outcome.2 = Ok response →
     User_is_active principal = true ∧
     Z.of_nat (length (files.content file)) ≤ 10 * 1024 * 1024 ∧
     ∃ name,
       files.filename file = Some name ∧
       files.ur_file_url response
         = Some ("/files/" +:+ uuid +:+ (splitext name).2) ∧
       outcome.1
         = <[files.path_join "uploads" (uuid +:+ (splitext name).2)
               := files.content file]> disk ∧
       files.fi_filename (files.ur_file_info response) = name ∧
       files.fi_size (files.ur_file_info response)
         = Z.of_nat (length (files.content file))) ∧
  (User_is_active principal = true →
   files.validate_file order file = Ok tt →
   Z.of_nat (length (files.content file)) ≤ 10 * 1024 * 1024 →
   ∃ response, outcome.2 = Ok response).
Proof.
  intros outcome. subst outcome.
  unfold files.upload_file, users.active_principal,
    auth.get_current_active_user.
  destruct (User_is_active principal); simpl; [|done].
  destruct (files.validate_file order file) as [[]|e] eqn:Hv; simpl; [|done].
  destruct (validate_file_Ok_name order file tt Hv) as (a & name & Hname).
  change files.MAX_FILE_SIZE with (10 * 1024 * 1024).
  destruct (Z.ltb_spec (10 * 1024 * 1024)
              (Z.of_nat (length (files.content file)))) as [Hbig|Hok]; simpl.
  - split; [done|]. split; [done|]. intros _ _ ?. lia.
  - split; [done|]. split; [|intros; by eexists].
    intros response [= <-]. split; [done|]. split; [done|].
    exists (String a name). rewrite Hname. simpl. done.
Qed.

(** Witness of X23: john_doe uploads [photo.JPG]. *)
Lemma upload_file_outcomes_witness :
  let order := [".jpg"; ".jpeg"; ".png"; ".gif"; ".pdf"; ".txt"; ".docx"; ".xlsx"] in
  let john := mkUser 2 "john_doe" "john@example.com" (Some "John Doe") USER true 0 None in
  let photo := files.mkUploadFile (Some "photo.JPG") (Some "image/jpeg") [] in
  ∃ response,
    (files.upload_file "1b4e28ba" 9 order photo john ∅).2 = Ok response.
Proof.
  intros order john photo.
  apply (proj2 (proj2 (upload_file_outcomes "1b4e28ba" 9 order photo john ∅))).
  - reflexivity.
  - vm_compute. reflexivity.
  - vm_compute. discriminate.
Defined.

(** X24. [upload_files] answers every file: for an active principal, more
    than five files are refused with a 400 and nothing is written;
    otherwise the handler does not raise and returns one response per
    file, in order, where a response carries a URL exactly when its file
    passes [validate_file] and has at most 10 MiB, so that a refused file
    does not stop the others; nothing that was in the upload directory is
    removed, and when no file is accepted nothing is written. *)
Theorem upload_files_answers_each (order : list string)
    (inputs : list (files.UploadFile * (string * datetime)))
    (principal : User) (disk : gmap string (list Ascii.ascii)) :
  User_is_active principal = true →
  ((5 < length inputs)%nat →
     files.upload_files order inputs principal disk
       = (disk, Raise (HTTPException 400 "Maximum 5 files allowed per request"))) ∧
  ((length inputs ≤ 5)%nat →
     ∃ disk' responses,
       files.upload_files order inputs principal disk = (disk', Ok responses) ∧
       length responses = length inputs ∧
       Forall2
         (λ input response,
            is_Some (files.ur_file_url response) ↔
            files.validate_file order input.1 = Ok tt ∧
            Z.of_nat (length (files.content input.1)) ≤ 10 * 1024 * 1024)
         inputs responses ∧
       dom disk ⊆ dom disk' ∧
       (Forall
          (λ input,
             ¬ (files.validate_file order input.1 = Ok tt ∧
                Z.of_nat (length (files.content input.1)) ≤ 10 * 1024 * 1024))
          inputs → disk' = disk)).
Proof.
  intros Hactive.
  unfold files.upload_files, users.active_principal,
    auth.get_current_active_user. rewrite Hactive. simpl.
  destruct (Nat.ltb_spec 5 (length inputs)) as [Hmany|Hfew].
  - split; [done|]. lia.
  - split; [lia|]. intros _.
    pose proof (upload_each_spec order inputs disk) as Hspec.
    destruct (files.upload_each order inputs disk) as [disk' responses].
    by eexists _, _.
Qed.

(** Witness of X24: a refused file between two accepted ones. *)
Lemma upload_files_answers_each_witness :
  let order := [".jpg"; ".jpeg"; ".png"; ".gif"; ".pdf"; ".txt"; ".docx"; ".xlsx"] in
  let john := mkUser 2 "john_doe" "john@example.com" (Some "John Doe") USER true 0 None in
  let inputs :=
    [(files.mkUploadFile (Some "a.png") None [], ("u1", 1));
     (files.mkUploadFile (Some "b.exe") None [], ("u2", 2));
     (files.mkUploadFile (Some "c.txt") None [], ("u3", 3))] in
  ∃ disk' responses,
    files.upload_files order inputs john ∅ = (disk', Ok responses) ∧
    length responses = 3%nat ∧
    (files.ur_file_url <$> responses)
      = [Some "/files/u1.png"; None; Some "/files/u3.txt"].
Proof.
  intros order john inputs.
  destruct (proj2 (upload_files_answers_each order inputs john ∅ eq_refl))
    as (disk' & responses & Hrun & Hlen & _); [simpl; lia|].
  exists disk', responses. split; [exact Hrun|]. split; [exact Hlen|].
  vm_compute in Hrun. by injection Hrun as <- <-.
Defined.

(** ** Resolving the principal of a request *)

Section Principal.
Context `{CredentialHasher}.

Lemma deleted_username_unresolved (self : UserService) (username : string)
    (account : UserInDB) :
  reachable self →
  get_user_by_username self username = Some account →
  get_user_by_username (delete_user (db_id account) self).1 username = None.
Proof.
  intros Hr Hname.
  apply reachable_invariants in Hr as [Hnames Hids].
  apply ids_increasing_NoDup in Hids as Hnd.
  destruct (find_by_id_of_found_by_username self username account Hids Hname)
    as (i & _ & Hbyid).
  apply get_user_by_username_Some in Hname as [Hin Husername].
  unfold delete_user. rewrite Hbyid. simpl.
  rewrite (delete_found_filter _ i account (db_id account) Hnd Hbyid).
  apply get_user_by_username_None. simpl. intros u Hu Hsame.
  apply list_elem_of_filter in Hu as [Hne Hu]. apply Hne.
  f_equal. eapply (NoDup_fmap_elem_eq db_username); eauto. congruence.
Qed.

(** A username that no account bears stays free until it is registered. *)
Lemma run_keeps_username_free (username : string) (o : operation)
    (self : UserService) :
  registers username o = false →
  (∀ u, u ∈ _users self → db_username u ≠ username) →
  ∀ u, u ∈ _users (run o self) → db_username u ≠ username.
Proof.
  intros Hreg Hfree u Hu.
  destruct o as [now salt uc | now user_id upd | user_id]; simpl in *.
  - apply bool_decide_eq_false in Hreg.
    destruct (create_user_cases now salt uc self)
      as [Hsame | (_ & _ & acct & Hnew & _ & Hname & _)].
    + rewrite Hsame in Hu. by apply Hfree.
    + rewrite Hnew in Hu. simpl in Hu.
      apply elem_of_app in Hu as [Hu|Hu]; [by apply Hfree|].
      apply list_elem_of_singleton in Hu as ->. congruence.
  - apply (list_elem_of_fmap_2 db_username) in Hu.
    rewrite update_user_usernames in Hu.
    apply list_elem_of_fmap in Hu as (u' & -> & Hu'). by apply Hfree.
  - apply Hfree. eapply elem_of_sublist; [exact Hu|]. apply delete_user_sublist.
Qed.

Lemma run_all_keeps_username_free (username : string) (ops : list operation)
    (self : UserService) :
  Forall (λ o, registers username o = false) ops →
  (∀ u, u ∈ _users self → db_username u ≠ username) →
  ∀ u, u ∈ _users (run_all ops self) → db_username u ≠ username.
Proof.
  intros Hops. revert self.
  induction Hops as [|o ops Ho _ IH]; intros self Hfree; [done|].
  unfold run_all in *. simpl. apply IH. by apply run_keeps_username_free.
Qed.

(** X25. [get_current_user] only ever yields stored accounts, and tokens
    name usernames, not accounts: whatever the token and the time, a
    principal it returns is the hash-free view of the stored account that
    bears the principal's username; in a reachable store, once the
    account of a username is deleted, no token resolves to a principal of
    that username, on the store the deletion leaves and on every store
    reached from it by operations none of which registers that username;
    and when the username is registered again on the store the deletion
    leaves, a token that verifies to the username resolves to the new
    account, whose id is not the deleted one's. *)
Theorem get_current_user_resolves_stored (self : UserService)
    (token : TokenCodec.token) (now : datetime) :
  (∀ p, auth.get_current_user self token now = Ok p →
     ∃ account,
       get_user_by_username self (User_username p) = Some account ∧
       view_of account p) ∧
  (∀ username account ops,
     reachable self →
     get_user_by_username self username = Some account →
     Forall (λ o, registers username o = false) ops →
     ∀ p, auth.get_current_user
            (run_all ops (delete_user (db_id account) self).1) token now = Ok p →
          User_username p ≠ username) ∧
  (∀ username account now' salt user_create self' v,
     reachable self →
     get_user_by_username self username = Some account →
     uc_username user_create = username →
     create_user now' salt user_create (delete_user (db_id account) self).1
       = (self', Ok v) →
     TokenCodec.verify token now = inr username →
     auth.get_current_user self' token now = Ok v ∧ User_id v ≠ db_id account).
Proof.
  assert (∀ s p, auth.get_current_user s token now = Ok p →
            ∃ account,
              get_user_by_username s (User_username p) = Some account ∧
              view_of account p) as Hresolve.
  { intros s p. unfold auth.get_current_user.
    destruct (TokenCodec.verify token now) as [?|subject]; [done|].
    destruct (get_user_by_username s subject) as [account|] eqn:Hfound; [|done].
    intros Hview. apply without_password_view in Hview.
    apply get_user_by_username_Some in Hfound as Hf. destruct Hf as [_ Hsub].
    pose proof Hview as (_ & Hname & _).
    exists account. split; [|exact Hview]. rewrite Hname, Hsub. exact Hfound. }
  split; [apply Hresolve|]. split.
  - intros username account ops Hr Hname Hops p Hp Hsame.
    apply Hresolve in Hp as (account' & Hfound & _).
    apply get_user_by_username_Some in Hfound as [Hin Husername].
    eapply (run_all_keeps_username_free username ops); [exact Hops| |exact Hin|].
    + apply get_user_by_username_None.
      by apply deleted_username_unresolved.
    + congruence.
  - intros username account now' salt uc self' v Hr Hname Huc Hcreate Hverify.
    pose proof (create_user_ok_id _ _ _ _ _ _ Hcreate) as Hid.
    rewrite delete_user_next_id in Hid.
    apply get_user_by_username_Some in Hname as Hstored.
    destruct Hstored as [Hin _].
    pose proof (reachable_id_bound self account Hr Hin) as Hbound.
    split; [|lia].
    destruct (get_user_by_username (delete_user (db_id account) self).1
                (uc_username uc)) as [u|] eqn:Hu.
    { erewrite create_user_duplicate_username in Hcreate by exact Hu.
      discriminate Hcreate. }
    destruct (get_user_by_email (delete_user (db_id account) self).1
                (uc_email uc)) as [u|] eqn:He.
    { erewrite create_user_duplicate_email in Hcreate by done.
      discriminate Hcreate. }
    rewrite create_user_fresh in Hcreate by done.
    injection Hcreate as <- <-.
    unfold auth.get_current_user. rewrite Hverify, <- Huc.
    set (acct := mkUserInDB _ _ _ _ _ _ _ _ _).
    destruct (get_user_by_username_appended
                (_users (delete_user (db_id account) self).1)
                (_next_id (delete_user (db_id account) self).1)
                (_next_id (delete_user (db_id account) self).1 + 1) acct)
      as [Hfound _].
    { by apply get_user_by_username_None. }
    change (uc_username uc) with (db_username acct) at 1.
    rewrite Hfound.
    by rewrite (without_password_ok acct (uc_email uc) (uc_role uc)
                  (uc_is_active uc)).
Qed.
End Principal.

(** Witness of X25: a token of john_doe before the deletion of the
    account, after it and two other operations, and after the username is
    registered again, as an admin. *)
Lemma get_current_user_resolves_stored_witness :
  let token := TokenCodec.issue "john_doe" 1000 1800 in
  let deleted := (delete_user 2 fresh_service).1 in
  let again := mkUserCreate "john_doe" "jd@example.com" None ADMIN true "secret9" in
  (∃ p account,
     auth.get_current_user fresh_service token 1001 = Ok p ∧
     get_user_by_username fresh_service (User_username p) = Some account ∧
     view_of account p) ∧
  (∀ p, auth.get_current_user
          (@run_all reference_hasher
             [Create 5 "salt-3"
                (mkUserCreate "alice" "alice@x.com" None USER true "secret1");
              Delete 1] deleted) token 1001 = Ok p →
        User_username p ≠ "john_doe") ∧
  (∃ self' v,
     @create_user reference_hasher 7 "salt-4" again deleted = (self', Ok v) ∧
     auth.get_current_user self' token 1001 = Ok v ∧
     User_id v ≠ 2 ∧ User_role v = ADMIN).
Proof.
  intros token deleted again.
  destruct (@get_current_user_resolves_stored reference_hasher fresh_service
              token 1001) as (Hresolve & Hdeleted & Hagain).
  set (account := mkUserInDB 2 "john_doe" (Some "john@example.com")
                    (Some "John Doe") (Some USER) (Some true) 0 None
                    "user123$salt-2").
  assert (@reachable reference_hasher fresh_service) as Hr
    by (by apply (@reachable_init reference_hasher 0 0 "salt-1" "salt-2")).
  assert (get_user_by_username fresh_service "john_doe" = Some account) as Hname
    by reflexivity.
  split; [|split].
  - eexists.
    assert (auth.get_current_user fresh_service token 1001
            = Ok (mkUser 2 "john_doe" "john@example.com" (Some "John Doe")
                    USER true 0 None)) as Hp by (vm_compute; reflexivity).
    destruct (Hresolve _ Hp) as (acct & Hfound & Hview).
    exists acct. split; [exact Hp|]. split; [exact Hfound | exact Hview].
  - apply (Hdeleted "john_doe" account); [exact Hr | exact Hname |].
    repeat constructor.
  - eexists _, _. split; [vm_compute; reflexivity|].
    destruct (Hagain "john_doe" account 7 "salt-4" again
                (@create_user reference_hasher 7 "salt-4" again deleted).1
                (mkUser 3 "john_doe" "jd@example.com" None ADMIN true 7 None)
                Hr Hname) as [Hv Hid].
    + reflexivity.
    + vm_compute. reflexivity.
    + vm_compute. reflexivity.
    + split; [|split; [exact Hid | reflexivity]].
      vm_compute. reflexivity.
Defined.

(** ** Emails along runs without updates *)

(** X26. Only updates can break the uniqueness of emails: from a freshly
    constructed service, every run of [create_user] and [delete_user]
    operations, in any number and order, reaches a store in which no two
    accounts share an email. *)
Theorem emails_unique_without_updates `{CredentialHasher}
    (t1 t2 : datetime) (r1 r2 : string) (self : UserService)
    (ops : list operation) :
  UserService_init t1 t2 r1 r2 = Ok self →
  Forall (λ o, is_update o = false) ops →
  unique_emails (run_all ops self).
Proof.
  intros Hinit Hops.
  apply UserService_init_invariants in Hinit as (_ & Hemails & _).
  revert self Hemails.
  induction Hops as [|o ops Ho _ IH]; intros self Hemails; [done|].
  unfold run_all in *. simpl. apply IH.
  destruct o as [now salt uc | now user_id upd | user_id]; simpl.
  - by apply create_user_unique_emails.
  - discriminate Ho.
  - by apply delete_user_unique_emails.
Qed.

(** Witness of X26: a registration, a refused one and a deletion. *)
Lemma emails_unique_without_updates_witness :
  unique_emails
    (@run_all reference_hasher
       [Create 5 "salt-3" (mkUserCreate "alice" "alice@x.com" None USER true "secret1");
        Create 6 "salt-4" (mkUserCreate "bob" "alice@x.com" None USER true "secret2");
        Delete 1]
       fresh_service).
Proof.
  apply (@emails_unique_without_updates reference_hasher 0 0 "salt-1" "salt-2").
  - vm_compute. reflexivity.
  - repeat constructor.
Defined.

(** ** The public product reads *)

Lemma get_products_page (self : product_service.ProductService)
    (skip limit : Z) (category : option ProductCategory) (in_stock : option bool) :
  0 ≤ skip → 0 ≤ limit →
  product_service.get_products self skip limit category in_stock
    `sublist_of` product_service._products self ∧
  Z.of_nat (length (product_service.get_products self skip limit category in_stock))
    ≤ limit.
Proof.
  intros Hskip Hlimit. unfold product_service.get_products.
  rewrite py_slice_window by done. split; [|rewrite length_take; lia].
  etrans; [apply sublist_take|]. etrans; [apply sublist_drop|].
  destruct in_stock, category;
    repeat (etrans; [apply sublist_filter|]); done.
Qed.

(** X27. Product reads need no principal and are bounded: the listing
    handler returns exactly for [skip >= 0] and [1 <= limit <= 100], and
    then returns the service's page, a sub-sequence of the stored products
    of at most [limit] elements; the single-product handler raises 404
    exactly when no product has the id, and otherwise returns a stored
    product with that id.  (What the framework does with the returned
    value afterwards is outside the handlers.) *)
Theorem product_reads_outcomes (self : product_service.ProductService)
    (skip limit : Z) (category : option ProductCategory)
    (in_stock : option bool) (product_id : Z) :
  (∀ page, products.get_products skip limit category in_stock self = Ok page →
     0 ≤ skip ∧ 1 ≤ limit ≤ 100 ∧
     page `sublist_of` product_service._products self ∧
     Z.of_nat (length page) ≤ limit) ∧
  (0 ≤ skip → 1 ≤ limit ≤ 100 →
     products.get_products skip limit category in_stock self
       = Ok (product_service.get_products self skip limit category in_stock)) ∧
  (products.get_product product_id self
     = Raise (HTTPException 404 "Product not found")
   ↔ ∀ p, p ∈ product_service._products self → p_id p ≠ product_id) ∧
  (∀ p, products.get_product product_id self = Ok p →
        p ∈ product_service._products self ∧ p_id p = product_id).
Proof.
  split; [|split; [|split]].
  - intros page. unfold products.get_products.
    destruct (Query (Some 0) None "skip" skip) as [skip'|] eqn:Hskip; [|done].
    apply Query_Ok in Hskip as (-> & Hlo & _). specialize (Hlo 0 eq_refl).
    simpl.
    destruct (Query (Some 1) (Some 100) "limit" limit) as [limit'|] eqn:Hlimit;
      [|done].
    apply Query_Ok in Hlimit as (-> & Hlo' & Hhi).
    specialize (Hlo' 1 eq_refl). specialize (Hhi 100 eq_refl). simpl.
    intros [= <-]. split; [done|]. split; [done|].
    apply get_products_page; lia.
  - intros Hskip [Hlo Hhi]. unfold products.get_products, Query. simpl.
    destruct (Z.leb_spec 0 skip); [|lia]. simpl.
    destruct (Z.leb_spec 1 limit); [|lia].
    destruct (Z.leb_spec limit 100); [|lia]. done.
  - unfold products.get_product, product_service.get_product_by_id.
    destruct (list_find _ _) as [[i p]|] eqn:Hf; simpl.
    + split; [done|]. intros Hnone.
      apply list_find_Some in Hf as (Hi & Hp & _).
      destruct (Hnone p); [by eapply list_elem_of_lookup_2 | done].
    + split; [|done]. intros _ p Hp. apply list_find_None in Hf.
      rewrite Forall_forall in Hf. by apply Hf.
  - intros p. unfold products.get_product, product_service.get_product_by_id.
    destruct (list_find _ _) as [[i q]|] eqn:Hf; simpl; [|done].
    intros [= <-]. apply list_find_Some in Hf as (Hi & Hp & _).
    split; [by eapply list_elem_of_lookup_2 | done].
Qed.

(** Witness of X27: the first page and a missing product of the sample
    store. *)
Lemma product_reads_outcomes_witness :
  products.get_products 0 2 None None product_service.fresh
    = Ok (product_service.get_products product_service.fresh 0 2 None None) ∧
  products.get_product 9 product_service.fresh
    = Raise (HTTPException 404 "Product not found").
Proof.
  destruct (product_reads_outcomes product_service.fresh 0 2 None None 9)
    as (_ & Hpage & Hmissing & _).
  split.
  - apply Hpage; lia.
  - apply Hmissing. intros p Hp. vm_compute in Hp.
    repeat (apply elem_of_cons in Hp as [->|Hp]; [simpl; discriminate|]).
    apply elem_of_nil in Hp. destruct Hp.
Defined.
